(** * crispy::read_selector — readiness multiplexer, select and epoll backends

    Shallow embedding of [src/crispy/read_selector.h]:
    [posix_read_selector] (built on [select]) and [epoll_read_selector]
    (built on [epoll] and an [eventfd]).

    The selectors are thin layers over system calls, so the development has
    three parts: a small model of the calls the header uses ([World]), the two
    classes translated method by method ([Posix], [Epoll]), and the
    properties.  What the operating system decides on its own (which
    descriptors a readiness call reports, whether a signal interrupts it,
    which descriptor number a creation call hands out) is an explicit input
    of the model: a readiness call consumes one [reply] from a list, and a
    call that finds the list empty is still blocked ([Starved]). *)

From stdpp Require Import gmap list sorting strings.
From Equations Require Import Equations.

Local Open Scope Z_scope.

(** ** errno values (Linux numbering; only their being distinct matters) *)

Definition EPERM  : Z := 1.
Definition ENOENT : Z := 2.
Definition EINTR  : Z := 4.
Definition EBADF  : Z := 9.
Definition EAGAIN : Z := 11.
Definition EEXIST : Z := 17.
Definition EINVAL : Z := 22.

(** ** The caller's view of a [wait_one] result

    [wait_one] returns [std::optional<int>]; the three outcomes without a
    descriptor are told apart by [errno] only: the epoll backend stores
    [EINTR] for a wakeup and [EAGAIN] for a timeout (lines 213 and 239), the
    select backend stores [EAGAIN] in [try_pop_pending] (line 101), and a
    failed readiness call leaves its own error code. *)

Inductive outcome :=
| Ready (fd : Z)
| Interrupted
| TimedOut
| Error (detail : Z).

Definition classify (r : option Z) (errno : Z) : outcome :=
  match r with
  | Some fd => Ready fd
  | None =>
      if errno =? EINTR then Interrupted
      else if errno =? EAGAIN then TimedOut
      else Error errno
  end.

(** ** Result of running a method against the world *)

Inductive exec (A : Type) :=
| Returns (a : A)   (* the method returned *)
| Starved           (* a readiness call is still blocked: no reply left *)
| Aborted.          (* [assert] or [Require] failed *)
Arguments Returns {A} a.
Arguments Starved {A}.
Arguments Aborted {A}.

Definition exec_bind {A B} (m : exec A) (f : A → exec B) : exec B :=
  match m with
  | Returns a => f a
  | Starved => Starved
  | Aborted => Aborted
  end.

(** ** The world: descriptor table, errno, and the log of system calls *)

Module World.

(** What an open descriptor refers to.  The selectors create epoll
    instances and eventfds themselves; every other open descriptor belongs
    to the caller (the pty master, a socket, a regular file, ...).  Of a
    caller's descriptor the table records that it is open and whether it
    supports polling ([epoll_ctl] refuses a regular file or a directory);
    its content is not followed, the selectors never read or write it. *)
Inductive fobj :=
| EpollObj (interest : list Z)   (* interest list, in registration order *)
| EventObj (count : Z)           (* eventfd counter, EFD_NONBLOCK *)
| FileObj (pollable : bool).     (* a descriptor of the caller *)

(** Whether [epoll_ctl] accepts the object as a target. *)
Definition can_poll (o : fobj) : bool :=
  match o with
  | FileObj p => p
  | _ => true
  end.

Inductive syscall :=
| sys_epoll_create1 (ret : Z)
| sys_eventfd (ret : Z)
| sys_epoll_ctl_add (epfd fd ret : Z)
| sys_epoll_ctl_del (epfd fd ret : Z)
| sys_epoll_wait (epfd timeout ret : Z)
| sys_select (nfds : Z) (tv : option (Z * Z)) (ret : Z)
| sys_read (fd ret : Z)
| sys_write (fd ret : Z)
| sys_close (fd ret : Z).

Record world := mk_world {
  objs  : gmap Z fobj;
  errno : Z;
  trace : list syscall   (* oldest call first *)
}.

Definition set_errno (w : world) (e : Z) : world :=
  mk_world (objs w) e (trace w).

Definition log (w : world) (c : syscall) : world :=
  mk_world (objs w) (errno w) (trace w ++ [c]).

Definition set_objs (w : world) (o : gmap Z fobj) : world :=
  mk_world o (errno w) (trace w).

(** A failing call returns -1 and stores its error code. *)
Definition fail (w : world) (e : Z) (c : Z → syscall) : Z * world :=
  (-1, log (set_errno w e) (c (-1))).

(** What a readiness call answers: the descriptors it reports (in report
    order), or a failure with its error code.  [ReplyReady []] is an expired
    timeout. *)
Inductive reply :=
| ReplyReady (fds : list Z)
| ReplyFail (e : Z).

(** [epoll_create1] and [eventfd]: [ret] is the descriptor number the kernel
    hands out, or -1 when it refuses. *)
Definition epoll_create1 (w : world) (ret : Z) : Z * world :=
  if ret =? -1 then (-1, log w (sys_epoll_create1 (-1)))
  else (ret, log (set_objs w (<[ret := EpollObj []]> (objs w))) (sys_epoll_create1 ret)).

Definition eventfd (w : world) (initval : Z) (ret : Z) : Z * world :=
  if ret =? -1 then (-1, log w (sys_eventfd (-1)))
  else (ret, log (set_objs w (<[ret := EventObj initval]> (objs w))) (sys_eventfd ret)).

(** [epoll_ctl(epfd, EPOLL_CTL_ADD, fd, {EPOLLIN, data.fd = fd})], with the
    errors of epoll_ctl(2): [EBADF] when [epfd] or [fd] is not open, [EPERM]
    when [fd] does not support polling, [EINVAL] when [fd] is [epfd] or
    [epfd] is no epoll instance, [EEXIST] when [fd] is already listed.  In
    the kernel a listed descriptor is an open one that supports polling, so
    looking for [EEXIST] first gives the same answers. *)
Definition epoll_ctl_add (w : world) (epfd fd : Z) : Z * world :=
  match objs w !! epfd with
  | Some (EpollObj l) =>
      if fd =? epfd then fail w EINVAL (sys_epoll_ctl_add epfd fd)
      else if bool_decide (fd ∈ l) then fail w EEXIST (sys_epoll_ctl_add epfd fd)
      else match objs w !! fd with
           | None => fail w EBADF (sys_epoll_ctl_add epfd fd)
           | Some o =>
               if can_poll o
               then (0, log (set_objs w (<[epfd := EpollObj (l ++ [fd])]> (objs w)))
                            (sys_epoll_ctl_add epfd fd 0))
               else fail w EPERM (sys_epoll_ctl_add epfd fd)
           end
  | Some _ => fail w EINVAL (sys_epoll_ctl_add epfd fd)
  | None => fail w EBADF (sys_epoll_ctl_add epfd fd)
  end.

(** [epoll_ctl(epfd, EPOLL_CTL_DEL, fd, _)]: a listed descriptor is taken
    off the list; one that is not listed gives [EBADF] when it is not open,
    [EPERM] when it does not support polling, [EINVAL] when it is [epfd],
    and [ENOENT] otherwise. *)
Definition epoll_ctl_del (w : world) (epfd fd : Z) : Z * world :=
  match objs w !! epfd with
  | Some (EpollObj l) =>
      if bool_decide (fd ∈ l)
      then (0, log (set_objs w (<[epfd := EpollObj (filter (λ x, x ≠ fd) l)]> (objs w)))
                   (sys_epoll_ctl_del epfd fd 0))
      else match objs w !! fd with
           | None => fail w EBADF (sys_epoll_ctl_del epfd fd)
           | Some o =>
               if negb (can_poll o) then fail w EPERM (sys_epoll_ctl_del epfd fd)
               else if fd =? epfd then fail w EINVAL (sys_epoll_ctl_del epfd fd)
               else fail w ENOENT (sys_epoll_ctl_del epfd fd)
           end
  | Some _ => fail w EINVAL (sys_epoll_ctl_del epfd fd)
  | None => fail w EBADF (sys_epoll_ctl_del epfd fd)
  end.

(** Largest value an eventfd counter can hold. *)
Definition eventfd_max : Z := 2 ^ 64 - 2.

(** [write(fd, buf, len)]; [val] is the buffer read as an [eventfd_t]. *)
Definition write (w : world) (fd len val : Z) : Z * world :=
  match objs w !! fd with
  | Some (EventObj c) =>
      if len <? 8 then fail w EINVAL (sys_write fd)
      else if eventfd_max <? c + val then fail w EAGAIN (sys_write fd)
      else (8, log (set_objs w (<[fd := EventObj (c + val)]> (objs w))) (sys_write fd 8))
  | Some (EpollObj _) => fail w EINVAL (sys_write fd)
  | Some (FileObj _) => fail w EAGAIN (sys_write fd)
  | None => fail w EBADF (sys_write fd)
  end.

(** [read(fd, buf, len)]: an eventfd hands over its whole counter and
    resets it; with the counter at zero the non-blocking read fails.  A
    descriptor of the caller answers as a non-blocking descriptor with
    nothing to deliver. *)
Definition read (w : world) (fd len : Z) : Z * world :=
  match objs w !! fd with
  | Some (EventObj c) =>
      if len <? 8 then fail w EINVAL (sys_read fd)
      else if c =? 0 then fail w EAGAIN (sys_read fd)
      else (8, log (set_objs w (<[fd := EventObj 0]> (objs w))) (sys_read fd 8))
  | Some (EpollObj _) => fail w EINVAL (sys_read fd)
  | Some (FileObj _) => fail w EAGAIN (sys_read fd)
  | None => fail w EBADF (sys_read fd)
  end.

(** [close(fd)].  The selectors close only their own two descriptors, the
    epoll instance first (lines 160-161); no other epoll instance lists
    them, so no interest list has to be updated. *)
Definition close (w : world) (fd : Z) : Z * world :=
  match objs w !! fd with
  | Some _ => (0, log (set_objs w (delete fd (objs w))) (sys_close fd 0))
  | None => fail w EBADF (sys_close fd)
  end.

(** [epoll_wait(epfd, events, maxevents, timeout)]: the result and the
    filled prefix of [events] (each entry's [data.fd]). *)
Definition epoll_wait (w : world) (epfd : Z) (maxevents : nat) (timeout : Z)
    (r : reply) : Z * list Z * world :=
  match objs w !! epfd with
  | Some (EpollObj _) =>
      match r with
      | ReplyReady fds =>
          let evs := take maxevents fds in
          (Z.of_nat (length evs), evs,
           log w (sys_epoll_wait epfd timeout (Z.of_nat (length evs))))
      | ReplyFail e =>
          (-1, [], log (set_errno w e) (sys_epoll_wait epfd timeout (-1)))
      end
  | Some _ =>
      (-1, [], log (set_errno w EINVAL) (sys_epoll_wait epfd timeout (-1)))
  | None =>
      (-1, [], log (set_errno w EBADF) (sys_epoll_wait epfd timeout (-1)))
  end.

(** [select(nfds, &readfds, &writefds, &exceptfds, tv)] with empty write and
    exception sets.  [readfds] is an in/out argument: on return it holds the
    watched descriptors below [nfds] that are readable (all bits cleared on
    a timeout), and it is left alone on failure.  [ReplyReady fds] lists the
    descriptors that are readable in the world when the call returns. *)
Definition select (w : world) (nfds : Z) (readfds : gset Z) (tv : option (Z * Z))
    (r : reply) : Z * gset Z * world :=
  match r with
  | ReplyReady fds =>
      let out := filter (λ fd, 0 ≤ fd < nfds) (readfds ∩ list_to_set fds) in
      (Z.of_nat (size out), out, log w (sys_select nfds tv (Z.of_nat (size out))))
  | ReplyFail e =>
      (-1, readfds, log (set_errno w e) (sys_select nfds tv (-1)))
  end.

(** Units a [read] on [fd] can still deliver. *)
Definition unread (w : world) (fd : Z) : nat :=
  match objs w !! fd with
  | Some (EventObj c) => if c =? 0 then 0%nat else 1%nat
  | _ => 0%nat
  end.

(** Number of readiness calls in a log. *)
Definition is_wait (c : syscall) : bool :=
  match c with
  | sys_epoll_wait _ _ _ | sys_select _ _ _ => true
  | _ => false
  end.

Definition waits (w : world) : nat := length (filter is_wait (trace w)).

Definition empty : world := mk_world ∅ 0 [].

(** Descriptor [fd] is an eventfd whose counter is not negative. *)
Definition event_at (w : world) (fd : Z) : Prop :=
  ∃ c, objs w !! fd = Some (EventObj c) ∧ 0 ≤ c.

End World.

Import World.

(** ** Calls a client can make on a selector

    [Wait] carries the replies the operating system gives to the readiness
    calls of that [wait_one]. *)

Inductive op :=
| Want (fd : Z)
| Cancel (fd : Z)
| Wakeup
| Wait (timeout : option Z) (rs : list reply).

(** [static_cast<int>]: reduction to 32 bits, two's complement. *)
Definition to_int (z : Z) : Z := (z + 2 ^ 31) `mod` 2 ^ 32 - 2 ^ 31.

Definition inspect {A} (a : A) : {b : A | a = b} := exist _ a eq_refl.

(** ** posix_read_selector *)

Module Posix.

(** [fd_set] is a bitmap of [FD_SETSIZE] bits, sixteen words of 64; it is
    modelled as the set of the numbers of its set bits.  [_writer] and
    [_except] are never populated by the class and stay empty through
    [select], so they are left out. *)
Record selector := mk_selector {
  _reader    : gset Z;
  _fds       : list Z;
  _pending   : list Z;
  _breakPipe : Z * Z
}.

Definition FD_SETSIZE : Z := 1024.
Definition NFDBITS : Z := 64.

(** The macros address word [fd / NFDBITS] (C division, which rounds toward
    zero) and in it the bit [1UL << (fd % NFDBITS)]; the processor takes the
    shift count modulo 64.  For a descriptor in [0, FD_SETSIZE) that is bit
    [fd].  For the -1 of a pipe that was never created it is word 0, bit
    63: the bit of descriptor 63.  [None] when the word lies outside the
    bitmap. *)
Definition fd_bit (fd : Z) : option Z :=
  let elt := Z.quot fd NFDBITS in
  if bool_decide (0 ≤ elt < FD_SETSIZE `div` NFDBITS)
  then Some (NFDBITS * elt + (Z.rem fd NFDBITS) `mod` NFDBITS)
  else None.

(** A store to a word outside the bitmap lands in whatever the object holds
    next to [_reader] and leaves the bitmap as it is; what it damages there
    is not modelled, and the statements about registered descriptors take
    them in [0, FD_SETSIZE).  A load from such a word is read as an unset
    bit. *)
Definition FD_SET (fd : Z) (s : gset Z) : gset Z :=
  match fd_bit fd with
  | Some b => {[b]} ∪ s
  | None => s
  end.

Definition FD_CLR (fd : Z) (s : gset Z) : gset Z :=
  match fd_bit fd with
  | Some b => s ∖ {[b]}
  | None => s
  end.

Definition FD_ISSET (fd : Z) (s : gset Z) : bool :=
  match fd_bit fd with
  | Some b => bool_decide (b ∈ s)
  | None => false
  end.

(** Descriptors the bitmap has a bit for. *)
Definition in_range (fd : Z) : Prop := 0 ≤ fd < FD_SETSIZE.

(** [posix_read_selector {}]: the default member initialisers. *)
Definition init : selector := mk_selector ∅ [] [] (-1, -1).

Definition want_read (s : selector) (fd : Z) : selector :=
  mk_selector (FD_SET fd (_reader s))
              (merge_sort Z.le (_fds s ++ [fd]))
              (_pending s)
              (_breakPipe s).

Definition cancel_read (s : selector) (fd : Z) : selector :=
  mk_selector (FD_CLR fd (_reader s))
              (filter (λ x, x ≠ fd) (_fds s))
              (_pending s)
              (_breakPipe s).

Definition create (fds : list Z) : selector := foldl want_read init fds.

(** [write(_breakPipe[1], "x", 1)] when the write end exists. *)
Definition wakeup (s : selector) (w : world) : world :=
  if bool_decide (snd (_breakPipe s) ≠ -1)
  then snd (write w (snd (_breakPipe s)) 1 120)
  else w.

Definition try_pop_pending (s : selector) (w : world) : option Z * selector * world :=
  match _pending s with
  | [] => (None, s, set_errno w EAGAIN)
  | fd :: rest =>
      (Some fd, mk_selector (_reader s) (_fds s) rest (_breakPipe s), w)
  end.

(** [timeval { count / 1000, static_cast<int>((count % 1000) * 1000) }] *)
Definition timeval_of (ms : Z) : Z * Z :=
  (Z.quot ms 1000, to_int (Z.rem ms 1000 * 1000)).

(** [while (read(_breakPipe[0], buf, sizeof(buf)) > 0);] *)
Equations? drain (w : world) (fd : Z) : world by wf (unread w fd) lt :=
  drain w fd with inspect (read w fd 256) := {
    | exist _ (r, w') Hrd with decide (0 < r) := {
        | left Hpos := drain w' fd
        | right _ := w' } }.
Proof.
  unfold read, unread, fail in *.
  destruct (objs w !! fd) as [[l|c|p]|] eqn:Ho; simpl in *;
    try (injection Hrd as <- <-; lia).
  destruct (c =? 0) eqn:Hc; simpl in *; injection Hrd as <- <-; try lia.
  simpl. rewrite lookup_insert_eq. simpl. lia.
Qed.

Definition set_reader (s : selector) (r : gset Z) : selector :=
  mk_selector r (_fds s) (_pending s) (_breakPipe s).

Definition push_pending (s : selector) (l : list Z) : selector :=
  mk_selector (_reader s) (_fds s) (_pending s ++ l) (_breakPipe s).

Definition wait_one (s : selector) (w : world) (timeout : option Z)
    (rs : list reply) : exec (option Z * selector * world * list reply) :=
  if bool_decide (_fds s = []) then Aborted else
  match try_pop_pending s w with
  | (Some fd, s1, w1) => Returns (Some fd, s1, w1, rs)
  | (None, s1, w1) =>
      match rs with
      | [] => Starved
      | r :: rs' =>
          let tv := timeval_of <$> timeout in
          let '(result, reader', w2) :=
            select w1 (List.last (_fds s1) 0 + 1) (_reader s1) tv r in
          let s2 := set_reader s1 reader' in
          if result <=? 0 then Returns (None, s2, w2, rs')
          else if FD_ISSET (fst (_breakPipe s2)) (_reader s2)
          then Returns (None, s2, drain w2 (fst (_breakPipe s2)), rs')
          else
            let s3 := push_pending s2
                        (filter (λ fd, FD_ISSET fd (_reader s2) = true) (_fds s2)) in
            let '(fd, s4, w4) := try_pop_pending s3 w2 in
            Returns (fd, s4, w4, rs')
      end
  end.

(** The descriptors the [select] of [wait_one] reports when the readable
    descriptors of the world are [l]. *)
Definition reported (s : selector) (l : list Z) : gset Z :=
  filter (λ fd, 0 ≤ fd < List.last (_fds s) 0 + 1) (_reader s ∩ list_to_set l).

(** [n] successive calls of [wait_one], with their results in call order. *)
Fixpoint wait_many (n : nat) (s : selector) (w : world) (timeout : option Z)
    (rs : list reply) : exec (list (option Z) * selector * world * list reply) :=
  match n with
  | O => Returns ([], s, w, rs)
  | S n' =>
      exec_bind (wait_one s w timeout rs) (λ '(r, s1, w1, rs1),
      exec_bind (wait_many n' s1 w1 timeout rs1) (λ '(l, s2, w2, rs2),
      Returns (r :: l, s2, w2, rs2)))
  end.

Definition step (st : selector * world) (o : op) : exec (selector * world) :=
  let '(s, w) := st in
  match o with
  | Want fd => Returns (want_read s fd, w)
  | Cancel fd => Returns (cancel_read s fd, w)
  | Wakeup => Returns (s, wakeup s w)
  | Wait t rs =>
      exec_bind (wait_one s w t rs) (λ '(_, s', w', _), Returns (s', w'))
  end.

Fixpoint run (st : selector * world) (ops : list op) : exec (selector * world) :=
  match ops with
  | [] => Returns st
  | o :: ops' => exec_bind (step st o) (λ st', run st' ops')
  end.

(** States a client can bring a default-constructed selector to. *)
Definition reachable (s : selector) (w : world) : Prop :=
  ∃ w0 ops, run (init, w0) ops = Returns (s, w).

(** A call whose descriptor, if it has one, has a bit in the bitmap. *)
Definition op_in_range (o : op) : Prop :=
  match o with
  | Want fd | Cancel fd => in_range fd
  | _ => True
  end.

#[global] Instance op_in_range_dec (o : op) : Decision (op_in_range o).
Proof. destruct o; simpl; unfold in_range; apply _. Defined.

(** States a client can bring a default-constructed selector to when every
    descriptor it hands to [want_read] or [cancel_read] has a bit in the
    bitmap. *)
Definition reachable_in_range (s : selector) (w : world) : Prop :=
  ∃ w0 ops, Forall op_in_range ops ∧ run (init, w0) ops = Returns (s, w).

(** What every state reached with descriptors in range satisfies. *)
Definition inv (s : selector) : Prop :=
  StronglySorted Z.le (_fds s) ∧
  _breakPipe s = (-1, -1) ∧
  (∀ fd, fd ∈ _reader s → fd ∈ _fds s).

(** Every registered descriptor has a bit in the bitmap. *)
Definition fds_in_range (s : selector) : Prop :=
  ∀ fd, fd ∈ _fds s → in_range fd.

End Posix.

(** ** epoll_read_selector *)

Module Epoll.

Record selector := mk_selector {
  _epollFd : Z;
  _eventFd : Z;
  _pending : list Z
}.

(** Capacity of the [events] array. *)
Definition max_events : nat := 64.

(** Constructor.  [r1] and [r2] are what [epoll_create1] and [eventfd]
    return; [Require] aborts when either is -1. *)
Definition new (w : world) (r1 r2 : Z) : exec (selector * world) :=
  let '(epfd, w1) := epoll_create1 w r1 in
  if epfd =? -1 then Aborted else
  let '(evfd, w2) := eventfd w1 0 r2 in
  if evfd =? -1 then Aborted else
  let '(_, w3) := epoll_ctl_add w2 epfd evfd in
  Returns (mk_selector epfd evfd [], w3).

(** Destructor. *)
Definition destroy (s : selector) (w : world) : world :=
  let '(_, w1) := close w (_epollFd s) in
  let '(_, w2) := close w1 (_eventFd s) in
  w2.

Definition want_read (s : selector) (w : world) (fd : Z) : world :=
  snd (epoll_ctl_add w (_epollFd s) fd).

Definition cancel_read (s : selector) (w : world) (fd : Z) : world :=
  snd (epoll_ctl_del w (_epollFd s) fd).

(** [write(_eventFd, &value, sizeof(value))] with [value = 1]. *)
Definition wakeup (s : selector) (w : world) : world :=
  snd (write w (_eventFd s) 8 1).

Definition try_pop_pending (s : selector) : option Z * selector :=
  match _pending s with
  | [] => (None, s)
  | fd :: rest => (Some fd, mk_selector (_epollFd s) (_eventFd s) rest)
  end.

Definition push_back (s : selector) (fd : Z) : selector :=
  mk_selector (_epollFd s) (_eventFd s) (_pending s ++ [fd]).

(** The [for] loop over the reported events (lines 224-234): the state is
    the selector, the [piped] flag and the world. *)
Definition triage_step (acc : selector * bool * world) (fd : Z)
    : selector * bool * world :=
  let '(s, piped, w) := acc in
  if fd =? _eventFd s
  then let '(n, w') := read w (_eventFd s) 8 in (s, 0 <? n, w')
  else (push_back s fd, piped, w).

Definition triage (s : selector) (w : world) (events : list Z)
    : selector * bool * world :=
  foldl triage_step (s, false, w) events.

(** The timeout handed to [epoll_wait]. *)
Definition timeout_arg (timeout : option Z) : Z :=
  match timeout with
  | Some ms => to_int ms
  | None => -1
  end.

(** The [for (;;)] loop: each round consumes one reply; only a reply that
    fails with [EINTR] starts another round. *)
Fixpoint wait_loop (s : selector) (w : world) (timeout : option Z)
    (rs : list reply) : exec (option Z * selector * world * list reply) :=
  match rs with
  | [] => Starved
  | r :: rs' =>
      let '(result, events, w1) :=
        epoll_wait w (_epollFd s) max_events (timeout_arg timeout) r in
      if result =? 0 then Returns (None, s, set_errno w1 EAGAIN, rs')
      else if result <? 0 then
        if errno w1 =? EINTR then wait_loop s w1 timeout rs'
        else Returns (None, s, w1, rs')
      else
        let '(s2, piped, w2) := triage s w1 (take (Z.to_nat result) events) in
        match try_pop_pending s2 with
        | (Some fd, s3) => Returns (Some fd, s3, w2, rs')
        | (None, s3) =>
            Returns (None, s3, set_errno w2 (if piped then EINTR else EAGAIN), rs')
        end
  end.

Definition wait_one (s : selector) (w : world) (timeout : option Z)
    (rs : list reply) : exec (option Z * selector * world * list reply) :=
  match try_pop_pending s with
  | (Some fd, s1) => Returns (Some fd, s1, w, rs)
  | (None, s1) => wait_loop s1 w timeout rs
  end.

(** The interest list of the selector's epoll instance. *)
Definition interest (s : selector) (w : world) : list Z :=
  match objs w !! _epollFd s with
  | Some (EpollObj l) => l
  | _ => []
  end.

(** The eventfd counter. *)
Definition counter (s : selector) (w : world) : Z :=
  match objs w !! _eventFd s with
  | Some (EventObj c) => c
  | _ => 0
  end.

(** [n] successive calls of [wait_one], with their results in call order. *)
Fixpoint wait_many (n : nat) (s : selector) (w : world) (timeout : option Z)
    (rs : list reply) : exec (list (option Z) * selector * world * list reply) :=
  match n with
  | O => Returns ([], s, w, rs)
  | S n' =>
      exec_bind (wait_one s w timeout rs) (λ '(r, s1, w1, rs1),
      exec_bind (wait_many n' s1 w1 timeout rs1) (λ '(l, s2, w2, rs2),
      Returns (r :: l, s2, w2, rs2)))
  end.

Definition step (st : selector * world) (o : op) : exec (selector * world) :=
  let '(s, w) := st in
  match o with
  | Want fd => Returns (s, want_read s w fd)
  | Cancel fd => Returns (s, cancel_read s w fd)
  | Wakeup => Returns (s, wakeup s w)
  | Wait t rs =>
      exec_bind (wait_one s w t rs) (λ '(_, s', w', _), Returns (s', w'))
  end.

Fixpoint run (st : selector * world) (ops : list op) : exec (selector * world) :=
  match ops with
  | [] => Returns st
  | o :: ops' => exec_bind (step st o) (λ st', run st' ops')
  end.

(** States a client can bring a freshly constructed selector to. *)
Definition reachable (s : selector) (w : world) : Prop :=
  ∃ w0 r1 r2 s0 w1 ops,
    new w0 r1 r2 = Returns (s0, w1) ∧ run (s0, w1) ops = Returns (s, w).

(** A readiness report the kernel can give in world [w] (level-triggered):
    no descriptor twice, only registered descriptors, and the eventfd
    exactly when its counter is non-zero (unless the batch is full). *)
Definition consistent (s : selector) (w : world) (evs : list Z) : Prop :=
  NoDup evs ∧
  (∀ fd, fd ∈ evs → fd ∈ interest s w) ∧
  (_eventFd s ∈ evs → 0 < counter s w) ∧
  (_eventFd s ∈ interest s w → 0 < counter s w →
   (length evs < max_events)%nat → _eventFd s ∈ evs).

(** The selector's two descriptors are open and wired as the constructor
    leaves them. *)
Definition wired (s : selector) (w : world) : Prop :=
  _epollFd s ≠ _eventFd s ∧
  (∃ l, objs w !! _epollFd s = Some (EpollObj l) ∧ _eventFd s ∈ l) ∧
  (∃ c, objs w !! _eventFd s = Some (EventObj c) ∧ 0 ≤ c < eventfd_max).

(** [w'] has no epoll object that [w] did not already have, unchanged. *)
Definition no_new_epoll (w w' : world) : Prop :=
  ∀ fd l, objs w' !! fd = Some (EpollObj l) → objs w !! fd = Some (EpollObj l).

(** The interest list of the selector's epoll instance has no repetition. *)
Definition interest_nodup (s : selector) (w : world) : Prop :=
  ∀ l, objs w !! _epollFd s = Some (EpollObj l) → NoDup l.

End Epoll.

(** ** contour::config — helpers of the configuration loader (Config.cpp) *)

Module Config.

(** [std::clamp(v, lo, hi)]. *)
Definition clamp (v lo hi : Z) : Z :=
  if v <? lo then lo else if hi <? v then hi else v.

(** [sanitizeRange(ref(value), min, max)]: the returned flag and the value
    the reference holds afterwards. *)
Definition sanitizeRange (value min max : Z) : bool * Z :=
  if (min <=? value) && (value <=? max) then (true, value)
  else (false, clamp value min max).

(** The terminal-size block of [updateTerminalProfile]: both dimensions are
    sanitized against [MinimalTerminalSize] (3 lines, 3 columns) and
    [MaximumTerminalSize] (200 lines, 300 columns); each failure logs a
    message whose first argument is the dimension as it is stored when the
    message is formatted. *)
Inductive size_message :=
| WidthOutOfBounds (shown min max : Z)
| HeightOutOfBounds (shown min max : Z).

Definition MinimalLines : Z := 3.
Definition MinimalColumns : Z := 3.
Definition MaximumLines : Z := 200.
Definition MaximumColumns : Z := 300.

Definition sanitizeTerminalSize (columns lines : Z) : Z * Z * list size_message :=
  let '(okc, columns') := sanitizeRange columns MinimalColumns MaximumColumns in
  let log1 := if okc then []
              else [WidthOutOfBounds columns' MinimalColumns MaximumColumns] in
  let '(okl, lines') := sanitizeRange lines MinimalLines MaximumLines in
  let log2 := if okl then []
              else [HeightOutOfBounds lines' MinimalLines MaximumLines] in
  (columns', lines', log1 ++ log2).

(** The [for] loop over [Mappings]: the first entry whose name equals
    [value]. *)
Fixpoint lookup_name {A} (table : list (string * A)) (value : string) : option A :=
  match table with
  | [] => None
  | (name, x) :: rest =>
      if String.eqb name value then Some x else lookup_name rest value
  end.

(** [stringToVTType].  [terminal::VTType] is declared outside these sources:
    the type and the ten enumerators the table names are parameters. *)
Section vttype.
Context {VTType : Type}.
Variables VT100 VT220 VT240 VT330 VT340 VT320 VT420 VT510 VT520 VT525 : VTType.

(** The array [Mappings]. *)
Definition vt_mappings : list (string * VTType) :=
  [ ("VT100", VT100); ("VT220", VT220); ("VT240", VT240); ("VT330", VT330);
    ("VT340", VT340); ("VT320", VT320); ("VT420", VT420); ("VT510", VT510);
    ("VT520", VT520); ("VT525", VT525) ]%string.

(** Its two columns. *)
Definition vt_names : list string :=
  [ "VT100"; "VT220"; "VT240"; "VT330"; "VT340";
    "VT320"; "VT420"; "VT510"; "VT520"; "VT525" ]%string.

Definition vt_types : list VTType :=
  [ VT100; VT220; VT240; VT330; VT340; VT320; VT420; VT510; VT520; VT525 ].

Definition stringToVTType (value : string) : option VTType :=
  lookup_name vt_mappings value.

End vttype.

(** [appendOrCreateBinding].  [terminal::match] is declared outside these
    sources; it is a parameter deciding whether a binding is the one for
    the given modes, modifier and input. *)
Section bindings.
Context {Modes Modifier Input Action : Type}.

Record InputBinding := mk_binding {
  modes    : Modes;
  modifier : Modifier;
  input    : Input;
  binding  : list Action
}.

Variable matches : InputBinding → Modes → Modifier → Input → bool.

Fixpoint appendOrCreateBinding (bindings : list InputBinding) (m : Modes)
    (md : Modifier) (i : Input) (action : Action) : list InputBinding :=
  match bindings with
  | [] => [mk_binding m md i [action]]
  | b :: rest =>
      if matches b m md i
      then mk_binding (modes b) (modifier b) (input b) (binding b ++ [action]) :: rest
      else b :: appendOrCreateBinding rest m md i action
  end.

End bindings.

End Config.

(** * Properties *)

(** ** Bookkeeping on the world *)

Lemma waits_log w c :
  waits (log w c) = (waits w + (if is_wait c then 1 else 0))%nat.
Proof.
  unfold waits, log; simpl. rewrite filter_app, length_app. f_equal.
  rewrite filter_cons, filter_nil. by destruct (is_wait c).
Qed.

Lemma waits_set_errno w e : waits (set_errno w e) = waits w.
Proof. reflexivity. Qed.

Lemma waits_set_objs w o : waits (set_objs w o) = waits w.
Proof. reflexivity. Qed.

Lemma exec_bind_returns {A B} (m : exec A) (f : A → exec B) b :
  exec_bind m f = Returns b → ∃ a, m = Returns a ∧ f a = Returns b.
Proof. destruct m; simpl; [eauto | done | done]. Qed.

(** ** The select backend *)

Section posix.
Import Posix.

Lemma posix_try_pop_nil s w :
  _pending s = [] → try_pop_pending s w = (None, s, set_errno w EAGAIN).
Proof. unfold try_pop_pending. by intros ->. Qed.

Lemma posix_try_pop_cons s w fd q :
  _pending s = fd :: q →
  try_pop_pending s w =
    (Some fd, mk_selector (_reader s) (_fds s) q (_breakPipe s), w).
Proof. unfold try_pop_pending. by intros ->. Qed.

(** The descriptors [select] leaves set are watched ones. *)
Lemma select_out_subseteq w nfds rd tv r :
  ∀ fd, fd ∈ (select w nfds rd tv r).1.2 → fd ∈ rd.
Proof.
  intros fd. destruct r as [l|e]; simpl; [|done].
  rewrite elem_of_filter. set_solver.
Qed.

Lemma select_out_range w nfds rd tv r :
  0 < (select w nfds rd tv r).1.1 →
  ∀ fd, fd ∈ (select w nfds rd tv r).1.2 → 0 ≤ fd < nfds.
Proof.
  destruct r as [l|e]; simpl; [|lia].
  intros _ fd. rewrite elem_of_filter. tauto.
Qed.

(** On a descriptor the bitmap has a bit for, the macros are insertion,
    removal and membership of that descriptor. *)
Lemma fd_bit_in_range fd : in_range fd → fd_bit fd = Some fd.
Proof.
  unfold in_range, fd_bit, FD_SETSIZE, NFDBITS. intros H.
  change (1024 `div` 64) with 16.
  pose proof (Z.quot_rem' fd 64) as Hqr.
  pose proof (Z.rem_bound_pos fd 64 ltac:(lia) ltac:(lia)) as Hrem.
  rewrite bool_decide_eq_true_2 by lia.
  f_equal. rewrite Z.mod_small by lia. lia.
Qed.

Lemma FD_SET_in_range fd s : in_range fd → FD_SET fd s = {[fd]} ∪ s.
Proof. intros H. unfold FD_SET. by rewrite fd_bit_in_range. Qed.

Lemma FD_CLR_in_range fd s : in_range fd → FD_CLR fd s = s ∖ {[fd]}.
Proof. intros H. unfold FD_CLR. by rewrite fd_bit_in_range. Qed.

Lemma FD_ISSET_in_range fd s : in_range fd → FD_ISSET fd s = bool_decide (fd ∈ s).
Proof. intros H. unfold FD_ISSET. by rewrite fd_bit_in_range. Qed.

(** The test of the read end of a pipe that was never created looks at the
    bit of descriptor 63. *)
Lemma FD_ISSET_absent_pipe s : FD_ISSET (-1) s = bool_decide (63 ∈ s).
Proof. reflexivity. Qed.



Lemma FD_ISSET_CLR fd s : FD_ISSET fd (FD_CLR fd s) = false.
Proof.
  unfold FD_CLR, FD_ISSET. destruct (fd_bit fd) as [b|] eqn:Hb; [|done].
  apply bool_decide_eq_false. set_solver.
Qed.

Lemma filter_ext_elem {A} (P Q : A → Prop) `{!∀ x, Decision (P x)}
    `{!∀ x, Decision (Q x)} (l : list A) :
  (∀ x, x ∈ l → (P x ↔ Q x)) → filter P l = filter Q l.
Proof.
  induction l as [|a l IH]; intros Hpq; [done|].
  rewrite !filter_cons.
  rewrite IH by (intros x Hx; apply Hpq; by right).
  destruct (decide (P a)) as [Hp|Hp], (decide (Q a)) as [Hq|Hq]; try done.
  - exfalso. apply Hq, Hpq; [left|done].
  - exfalso. apply Hp, Hpq; [left|done].
Qed.

Lemma posix_inv_init : inv init.
Proof.
  repeat split; simpl; [constructor | set_solver].
Qed.

Lemma posix_inv_want s fd : in_range fd → inv s → inv (want_read s fd).
Proof.
  intros Hfd (Hs & Hb & Hr). repeat split; simpl; [|done|].
  - apply (StronglySorted_merge_sort Z.le).
  - intros x Hx. rewrite merge_sort_Permutation.
    rewrite FD_SET_in_range in Hx by done. set_solver.
Qed.

Lemma sorted_filter (P : Z → Prop) `{!∀ x, Decision (P x)} (l : list Z) :
  StronglySorted Z.le l → StronglySorted Z.le (filter P l).
Proof.
  induction 1 as [|x l Hl IH Hx]; [constructor|].
  rewrite filter_cons. case_decide; [|done].
  constructor; [done|]. apply Forall_forall. intros y Hy.
  apply list_elem_of_filter in Hy as [_ Hy].
  rewrite Forall_forall in Hx. by apply Hx.
Qed.

Lemma posix_inv_cancel s fd : in_range fd → inv s → inv (cancel_read s fd).
Proof.
  intros Hfd (Hs & Hb & Hr). repeat split; simpl; [|done|].
  - by apply sorted_filter.
  - intros x Hx. apply list_elem_of_filter.
    rewrite FD_CLR_in_range in Hx by done. set_solver.
Qed.

(** [wait_one] never touches [_fds] nor [_breakPipe], and can only shrink
    the bitmap. *)
Lemma posix_wait_one_frame s w t rs r s' w' rs' :
  wait_one s w t rs = Returns (r, s', w', rs') →
  _fds s' = _fds s ∧ _breakPipe s' = _breakPipe s ∧
  (∀ fd, fd ∈ _reader s' → fd ∈ _reader s).
Proof.
  unfold wait_one. case_bool_decide; [done|].
  destruct (_pending s) as [|p q] eqn:Hp.
  - rewrite (posix_try_pop_nil _ _ Hp).
    destruct rs as [|r0 rs0]; [done|].
    pose proof (select_out_subseteq (set_errno w EAGAIN)
      (List.last (_fds s) 0 + 1) (_reader s) (timeval_of <$> t) r0) as Hsub.
    destruct (select _ _ _ _ r0) as [[res out] w2]; simpl in *.
    destruct (res <=? 0); [intros [= <- <- <- <-]; done|].
    destruct (FD_ISSET _ out); [intros [= <- <- <- <-]; done|].
    unfold try_pop_pending; simpl. rewrite Hp; simpl.
    destruct (filter _ (_fds s)); simpl; intros [= <- <- <- <-]; done.
  - rewrite (posix_try_pop_cons _ _ _ _ Hp). intros [= <- <- <- <-]. done.
Qed.

Lemma posix_inv_wait s w t rs r s' w' rs' :
  inv s → wait_one s w t rs = Returns (r, s', w', rs') → inv s'.
Proof.
  intros (Hs & Hb & Hr) Hw.
  apply posix_wait_one_frame in Hw as (Hf & Hbp & Hrd).
  unfold inv. rewrite Hf, Hbp. naive_solver.
Qed.

Lemma posix_inv_step s w o s' w' :
  op_in_range o → inv s ∧ fds_in_range s →
  step (s, w) o = Returns (s', w') → inv s' ∧ fds_in_range s'.
Proof.
  intros Ho [Hi Hf]. destruct o as [fd|fd| |t rs]; simpl in *.
  - intros [= <- <-]. split; [by apply posix_inv_want|].
    intros x. simpl. rewrite merge_sort_Permutation, elem_of_app, list_elem_of_singleton.
    intros [?| ->]; [by apply Hf | done].
  - intros [= <- <-]. split; [by apply posix_inv_cancel|].
    intros x. simpl. rewrite list_elem_of_filter. intros [_ ?]. by apply Hf.
  - by intros [= <- <-].
  - intros (a & Hw & Ha)%exec_bind_returns.
    destruct a as [[[r s1] w1] rs1]. injection Ha as <- <-.
    split; [eapply posix_inv_wait; eauto|].
    apply posix_wait_one_frame in Hw as (Hfds & _). unfold fds_in_range.
    by rewrite Hfds.
Qed.

Lemma posix_inv_run ops : ∀ s w s' w',
  Forall op_in_range ops → inv s ∧ fds_in_range s →
  run (s, w) ops = Returns (s', w') → inv s' ∧ fds_in_range s'.
Proof.
  induction ops as [|o ops IH]; intros s w s' w' Hops Hi; simpl.
  - by intros [= <- <-].
  - apply Forall_cons in Hops as [Ho Hops].
    intros (a & Hs & Hr)%exec_bind_returns. destruct a as [s1 w1].
    eapply IH; [done| |exact Hr]. eapply posix_inv_step; eauto.
Qed.

Lemma posix_reachable_inv s w : reachable_in_range s w → inv s ∧ fds_in_range s.
Proof.
  intros (w0 & ops & Hops & Hr). eapply posix_inv_run; [done| |exact Hr].
  split; [apply posix_inv_init|]. intros x Hx. by apply not_elem_of_nil in Hx.
Qed.

(** Whatever the client passes, [_breakPipe] keeps the value the selector
    was constructed with. *)
Lemma posix_step_breakPipe s w o s' w' :
  step (s, w) o = Returns (s', w') → _breakPipe s' = _breakPipe s.
Proof.
  destruct o as [fd|fd| |t rs]; simpl; try by intros [= <- <-].
  intros (a & Hw & Ha)%exec_bind_returns.
  destruct a as [[[r s1] w1] rs1]. injection Ha as <- <-.
  by apply posix_wait_one_frame in Hw as (_ & ? & _).
Qed.

Lemma posix_run_breakPipe ops : ∀ s w s' w',
  run (s, w) ops = Returns (s', w') → _breakPipe s' = _breakPipe s.
Proof.
  induction ops as [|o ops IH]; intros s w s' w'; simpl.
  - by intros [= <- <-].
  - intros (a & Hs & Hr)%exec_bind_returns. destruct a as [s1 w1].
    rewrite (IH _ _ _ _ Hr). by eapply posix_step_breakPipe.
Qed.

Lemma posix_drain_pending q : ∀ s w t rs,
  _fds s ≠ [] → _pending s = q →
  wait_many (length q) s w t rs =
    Returns (Some <$> q, mk_selector (_reader s) (_fds s) [] (_breakPipe s), w, rs).
Proof.
  induction q as [|fd q IH]; intros s w t rs Hne Hp; simpl.
  - destruct s; simpl in *; by subst.
  - unfold wait_one. rewrite bool_decide_eq_false_2 by done.
    rewrite (posix_try_pop_cons _ _ _ _ Hp). simpl.
    rewrite IH by done. reflexivity.
Qed.

(** The call that finds the queue empty and gets from [select] a non-empty
    report without descriptor 63: the watched descriptors that are reported
    are queued in the order of [_fds], and the first of them is returned. *)
Lemma posix_wait_one_refill s w t l rs :
  inv s → fds_in_range s → _fds s ≠ [] → _pending s = [] →
  reported s l ≠ ∅ → 63 ∉ reported s l →
  ∃ fd q,
    filter (λ x, x ∈ reported s l) (_fds s) = fd :: q ∧
    wait_one s w t (ReplyReady l :: rs) =
      Returns (Some fd,
               mk_selector (reported s l) (_fds s) q (_breakPipe s),
               log (set_errno w EAGAIN)
                   (sys_select (List.last (_fds s) 0 + 1) (timeval_of <$> t)
                               (Z.of_nat (size (reported s l)))),
               rs).
Proof.
  intros (Hs & Hb & Hr) Hfr Hne Hp Hout H63.
  assert (Hsz : size (reported s l) ≠ 0%nat).
  { intros ?%size_empty_iff. apply Hout. by apply leibniz_equiv. }
  destruct (filter (λ x, x ∈ reported s l) (_fds s)) as [|fd q] eqn:Hq.
  { exfalso. apply Hout, leibniz_equiv. apply elem_of_equiv_empty. intros x Hx.
    assert (x ∈ filter (λ x, x ∈ reported s l) (_fds s)) as Hin.
    { apply list_elem_of_filter. split; [done|].
      apply Hr. unfold reported in Hx. apply elem_of_filter in Hx. set_solver. }
    rewrite Hq in Hin. by apply not_elem_of_nil in Hin. }
  exists fd, q. split; [done|].
  unfold wait_one. rewrite bool_decide_eq_false_2 by done.
  rewrite (posix_try_pop_nil _ _ Hp). simpl. fold (reported s l).
  replace (Z.of_nat (size (reported s l)) <=? 0) with false
    by (symmetry; apply Z.leb_gt; lia).
  rewrite Hb. cbn [fst].
  rewrite FD_ISSET_absent_pipe, bool_decide_eq_false_2 by done.
  unfold try_pop_pending, push_pending, set_reader; simpl. rewrite Hp. simpl.
  rewrite (filter_ext_elem _ (λ x, x ∈ reported s l)).
  2:{ intros x Hx. rewrite FD_ISSET_in_range by (by apply Hfr).
      by rewrite bool_decide_eq_true. }
  rewrite Hq. by rewrite Hb.
Qed.

(** One report of [select] without descriptor 63 feeds exactly as many calls
    as it queued descriptors: they come back in the order of [_fds], the
    later calls make no system call, and the queue is empty again
    afterwards. *)
Lemma posix_batch s w t l rs :
  inv s → fds_in_range s → _fds s ≠ [] → _pending s = [] →
  reported s l ≠ ∅ → 63 ∉ reported s l →
  let q := filter (λ x, x ∈ reported s l) (_fds s) in
  ∃ s' w',
    wait_many (length q) s w t (ReplyReady l :: rs) = Returns (Some <$> q, s', w', rs) ∧
    q ≠ [] ∧ _pending s' = [] ∧ _fds s' = _fds s ∧
    _reader s' = reported s l ∧ waits w' = S (waits w).
Proof.
  intros Hi Hfr Hne Hp Hout H63 q.
  destruct (posix_wait_one_refill s w t l rs Hi Hfr Hne Hp Hout H63)
    as (fd & q' & Hq & Hw).
  subst q. rewrite Hq. simpl. rewrite Hw. simpl.
  rewrite posix_drain_pending by done. simpl.
  eexists _, _. split; [reflexivity|].
  repeat split; try done.
  rewrite waits_log. simpl. rewrite waits_set_errno. lia.
Qed.

(** A [read] on a descriptor that is not open fails at once, so the drain
    loop makes one call. *)
Lemma drain_not_open w fd :
  objs w !! fd = None → drain w fd = log (set_errno w EBADF) (sys_read fd (-1)).
Proof.
  intros Ho. funelim (drain w fd); try done.
  - exfalso. pose proof Hrd as Hrd'. revert Hrd'. unfold read. rewrite Ho.
    unfold fail. intros [= <- <-]. lia.
  - pose proof Hrd as Hrd'. revert Hrd'. unfold read. rewrite Ho.
    unfold fail. by intros [= <- <-].
Qed.

(** The call that finds the queue empty and descriptor 63 in the report of
    [select]: the test of [_breakPipe[0]], which is -1, finds bit 63 set, the
    drain loop runs on descriptor -1, and the call returns no descriptor and
    queues none. *)
Lemma posix_wait_one_bit63 s w t l rs :
  _breakPipe s = (-1, -1) → _fds s ≠ [] → _pending s = [] →
  63 ∈ reported s l →
  wait_one s w t (ReplyReady l :: rs) =
    Returns (None,
             mk_selector (reported s l) (_fds s) [] (_breakPipe s),
             drain (log (set_errno w EAGAIN)
                      (sys_select (List.last (_fds s) 0 + 1) (timeval_of <$> t)
                                  (Z.of_nat (size (reported s l))))) (-1),
             rs).
Proof.
  intros Hb Hne Hp H63.
  assert (Hsz : size (reported s l) ≠ 0%nat).
  { intros Hz%size_empty_iff. set_solver. }
  unfold wait_one. rewrite bool_decide_eq_false_2 by done.
  rewrite (posix_try_pop_nil _ _ Hp). simpl. fold (reported s l).
  replace (Z.of_nat (size (reported s l)) <=? 0) with false
    by (symmetry; apply Z.leb_gt; lia).
  rewrite Hb. cbn [fst].
  rewrite FD_ISSET_absent_pipe, bool_decide_eq_true_2 by done.
  unfold set_reader. by rewrite Hp, Hb.
Qed.

End posix.

(** ** The epoll backend *)

Section epoll.
Import Epoll.

Lemma epoll_try_pop_nil s : _pending s = [] → try_pop_pending s = (None, s).
Proof. unfold try_pop_pending. by intros ->. Qed.

Lemma epoll_try_pop_cons s fd q :
  _pending s = fd :: q →
  try_pop_pending s = (Some fd, mk_selector (_epollFd s) (_eventFd s) q).
Proof. unfold try_pop_pending. by intros ->. Qed.

(** A [read] or [write] on one descriptor leaves the others alone and is
    not a readiness call. *)
Lemma read_frame w fd len :
  waits (read w fd len).2 = waits w ∧
  ∀ fd', fd' ≠ fd → objs (read w fd len).2 !! fd' = objs w !! fd'.
Proof.
  unfold read, fail.
  destruct (objs w !! fd) as [[l|c|p]|];
    [| destruct (len <? 8); [|destruct (c =? 0)] | |]; simpl;
    (split;
     [ rewrite waits_log; cbn [is_wait]; rewrite ?waits_set_errno, ?waits_set_objs; lia
     | intros fd' Hne; simpl; by rewrite ?lookup_insert_ne by done ]).
Qed.

(** Triage queues the reported descriptors other than the eventfd, in
    report order, and touches neither descriptor field. *)
Lemma epoll_triage_fold evs : ∀ s p w,
  let '(s', _, w') := foldl triage_step (s, p, w) evs in
  _pending s' = _pending s ++ filter (λ fd, fd ≠ _eventFd s) evs ∧
  _epollFd s' = _epollFd s ∧ _eventFd s' = _eventFd s ∧
  waits w' = waits w ∧
  ∀ fd, fd ≠ _eventFd s → objs w' !! fd = objs w !! fd.
Proof.
  induction evs as [|e evs IH]; intros s p w; simpl.
  - by rewrite app_nil_r.
  - destruct (e =? _eventFd s) eqn:He.
    + apply Z.eqb_eq in He.
      pose proof (read_frame w (_eventFd s) 8) as [Hw Ho].
      destruct (read w (_eventFd s) 8) as [n w1]; simpl in *.
      specialize (IH s (0 <? n) w1).
      destruct (foldl triage_step (s, 0 <? n, w1) evs) as [[s' p'] w'].
      destruct IH as (H1 & H2 & H3 & H4 & H5).
      rewrite filter_cons. rewrite decide_False by (intros ?; congruence).
      repeat split; try done; [congruence|].
      intros fd Hfd. rewrite H5 by done. by apply Ho.
    + apply Z.eqb_neq in He.
      specialize (IH (push_back s e) p w).
      destruct (foldl triage_step (push_back s e, p, w) evs) as [[s' p'] w'].
      simpl in IH. destruct IH as (H1 & H2 & H3 & H4 & H5).
      rewrite filter_cons, decide_True by done.
      rewrite H1. by rewrite <- app_assoc.
Qed.

Lemma epoll_triage_spec s w evs :
  let '(s', _, w') := triage s w evs in
  _pending s' = _pending s ++ filter (λ fd, fd ≠ _eventFd s) evs ∧
  _epollFd s' = _epollFd s ∧ _eventFd s' = _eventFd s ∧
  waits w' = waits w ∧
  ∀ fd, fd ≠ _eventFd s → objs w' !! fd = objs w !! fd.
Proof. apply epoll_triage_fold. Qed.

(** The two ways [wait_one] hands out a descriptor, in one statement:
    whatever it returns, together with what is left in the queue, is the
    old queue followed by reported descriptors other than the eventfd. *)
Lemma epoll_wait_loop_queue t rs : ∀ s w r s' w' rs',
  wait_loop s w t rs = Returns (r, s', w', rs') →
  _epollFd s' = _epollFd s ∧ _eventFd s' = _eventFd s ∧
  ∃ evs, from_option (λ fd, [fd]) [] r ++ _pending s' =
         _pending s ++ filter (λ fd, fd ≠ _eventFd s) evs.
Proof.
  induction rs as [|r0 rs IH]; intros s w r s' w' rs'; simpl; [done|].
  destruct (epoll_wait w (_epollFd s) max_events (timeout_arg t) r0)
    as [[res evs] w1].
  destruct (res =? 0).
  { intros [= <- <- <- <-]. do 2 (split; [done|]). exists []. simpl.
    by rewrite app_nil_r. }
  destruct (res <? 0).
  { destruct (errno w1 =? EINTR); [by apply IH|].
    intros [= <- <- <- <-]. do 2 (split; [done|]). exists []. simpl.
    by rewrite app_nil_r. }
  pose proof (epoll_triage_spec s w1 (take (Z.to_nat res) evs)) as Ht.
  destruct (triage s w1 (take (Z.to_nat res) evs)) as [[s2 piped] w2].
  destruct Ht as (Hq & He1 & He2 & _).
  unfold try_pop_pending. destruct (_pending s2) as [|fd q] eqn:Hp.
  - intros [= <- <- <- <-]. do 2 (split; [done|]).
    exists (take (Z.to_nat res) evs). simpl. by rewrite Hp, <- Hq.
  - intros [= <- <- <- <-]. simpl. do 2 (split; [done|]).
    exists (take (Z.to_nat res) evs). by rewrite <- Hq.
Qed.

Lemma epoll_wait_one_queue s w t rs r s' w' rs' :
  wait_one s w t rs = Returns (r, s', w', rs') →
  _epollFd s' = _epollFd s ∧ _eventFd s' = _eventFd s ∧
  ∃ evs, from_option (λ fd, [fd]) [] r ++ _pending s' =
         _pending s ++ filter (λ fd, fd ≠ _eventFd s) evs.
Proof.
  unfold wait_one, try_pop_pending.
  destruct (_pending s) as [|fd q] eqn:Hp.
  - intros H%epoll_wait_loop_queue. by rewrite Hp in H.
  - intros [= <- <- <- <-]. simpl. do 2 (split; [done|]).
    exists []. by rewrite app_nil_r.
Qed.

Lemma epoll_drain_pending q : ∀ s w t rs,
  _pending s = q →
  wait_many (length q) s w t rs =
    Returns (Some <$> q, mk_selector (_epollFd s) (_eventFd s) [], w, rs).
Proof.
  induction q as [|fd q IH]; intros s w t rs Hp; simpl.
  - destruct s; simpl in *; by subst.
  - unfold wait_one. rewrite (epoll_try_pop_cons _ _ _ Hp). simpl.
    rewrite IH by done. reflexivity.
Qed.

(** One round of the loop on a non-empty report. *)
Lemma epoll_wait_loop_ready s w t l rs il :
  objs w !! _epollFd s = Some (EpollObj il) →
  take max_events l ≠ [] →
  wait_loop s w t (ReplyReady l :: rs) =
    let w1 := log w (sys_epoll_wait (_epollFd s) (timeout_arg t)
                       (Z.of_nat (length (take max_events l)))) in
    let '(s2, piped, w2) := triage s w1 (take max_events l) in
    match try_pop_pending s2 with
    | (Some fd, s3) => Returns (Some fd, s3, w2, rs)
    | (None, s3) =>
        Returns (None, s3, set_errno w2 (if piped then EINTR else EAGAIN), rs)
    end.
Proof.
  intros Ho Hne. simpl. unfold epoll_wait. rewrite Ho.
  set (evs := take max_events l) in *.
  assert (length evs ≠ 0%nat) by (by destruct evs).
  replace (Z.of_nat (length evs) =? 0) with false by (symmetry; apply Z.eqb_neq; lia).
  replace (Z.of_nat (length evs) <? 0) with false by (symmetry; apply Z.ltb_ge; lia).
  rewrite Nat2Z.id, take_ge by done. reflexivity.
Qed.

(** One report of [epoll_wait] feeds exactly as many calls as it queued
    descriptors, in report order and without a further readiness call. *)
Lemma epoll_batch s w t l rs il :
  _pending s = [] → objs w !! _epollFd s = Some (EpollObj il) →
  let q := filter (λ fd, fd ≠ _eventFd s) (take max_events l) in
  q ≠ [] →
  ∃ s' w',
    wait_many (length q) s w t (ReplyReady l :: rs) = Returns (Some <$> q, s', w', rs) ∧
    _pending s' = [] ∧ waits w' = S (waits w).
Proof.
  intros Hp Ho q Hq.
  assert (take max_events l ≠ []) as Hne.
  { intros Hnil. apply Hq. unfold q. by rewrite Hnil. }
  destruct q as [|fd q'] eqn:Eq; [done|]. simpl.
  unfold wait_one at 1. rewrite (epoll_try_pop_nil _ Hp).
  rewrite (epoll_wait_loop_ready _ _ _ _ _ _ Ho Hne). simpl.
  pose proof (epoll_triage_spec s
    (log w (sys_epoll_wait (_epollFd s) (timeout_arg t)
              (Z.of_nat (length (take max_events l))))) (take max_events l)) as Ht.
  destruct (triage s _ (take max_events l)) as [[s2 piped] w2].
  destruct Ht as (Hq2 & _ & _ & Hw & _).
  rewrite Hp in Hq2. simpl in Hq2. fold q in Hq2. rewrite Eq in Hq2.
  rewrite (epoll_try_pop_cons _ _ _ Hq2). simpl.
  rewrite epoll_drain_pending by done. simpl.
  eexists _, _. split; [reflexivity|]. split; [done|].
  rewrite Hw, waits_log. simpl. lia.
Qed.

End epoll.

(** * Main results *)

(** ** Order of delivery within a batch (C8) *)

(** Supporting fact, select backend: from a state reached with descriptors
    in range and an empty queue, a [select] that reports a non-empty set
    without descriptor 63 feeds as many [wait_one] calls as it queued
    descriptors; they return exactly the reported descriptors, in ascending
    order, the log gains one readiness call and no reply beyond the first is
    consumed.  The epoll backend does the same with the reported
    descriptors other than the eventfd, in report order ([epoll_batch]). *)
Lemma posix_batch_in_order s w t l rs :
  Posix.reachable_in_range s w → Posix._fds s ≠ [] → Posix._pending s = [] →
  Posix.reported s l ≠ ∅ → 63 ∉ Posix.reported s l →
  ∃ q s' w',
    Posix.wait_many (length q) s w t (ReplyReady l :: rs)
      = Returns (Some <$> q, s', w', rs) ∧
    q ≠ [] ∧ (∀ fd, fd ∈ q ↔ fd ∈ Posix.reported s l) ∧
    StronglySorted Z.le q ∧
    waits w' = S (waits w) ∧ Posix._pending s' = [].
Proof.
  intros Hr Hne Hp Hout H63.
  destruct (posix_reachable_inv _ _ Hr) as [Hi Hfr].
  destruct (posix_batch s w t l rs Hi Hfr Hne Hp Hout H63)
    as (s' & w' & Hw & Hq & Hp' & _ & _ & Hwaits).
  eexists _, s', w'. split; [exact Hw|]. split; [done|].
  split; [|split; [|done]].
  - intros fd. rewrite list_elem_of_filter. split; [tauto|].
    intros Hfd. split; [done|]. destruct Hi as (_ & _ & Hrd). apply Hrd.
    unfold Posix.reported in Hfd. apply elem_of_filter in Hfd. set_solver.
  - apply sorted_filter. by destruct Hi.
Qed.

(** The drain loop makes no readiness call. *)
Lemma drain_waits w fd : waits (Posix.drain w fd) = waits w.
Proof.
  funelim (Posix.drain w fd); try done.
  - rewrite H. pose proof (read_frame w fd 256) as [Hw _].
    rewrite Hrd in Hw. exact Hw.
  - pose proof (read_frame w fd 256) as [Hw _]. rewrite Hrd in Hw. exact Hw.
Qed.

Lemma posix_run_snoc ops : ∀ st o,
  Posix.run st (ops ++ [o]) = exec_bind (Posix.run st ops) (λ st', Posix.step st' o).
Proof.
  induction ops as [|o' ops IH]; intros st o; simpl.
  - by destruct (Posix.step st o).
  - destruct (Posix.step st o'); simpl; [apply IH | done | done].
Qed.

(** C8 (ordering within a batch), evaluated on the select backend with
    descriptor 63 in the report.  From any state a client can reach with
    descriptors the bitmap has a bit for, with an empty queue, a [select]
    report that holds descriptor 63 makes [wait_one] return no descriptor
    and queue none, whatever else was reported: the test
    [FD_ISSET(_breakPipe[0], &_reader)] of line 80, with [_breakPipe[0]] =
    -1, reads the bit of descriptor 63 and sends the call into the drain
    branch.  The state it leaves is again such a state, so
    the same happens on every later call whose report holds 63.  Example:
    with 5 and 63 watched and both readable, two successive calls return no
    descriptor, the first with the error of [read(-1, ...)]; by contrast,
    with 5 and 9 watched and both readable, 5 and then 9 are returned after
    one readiness call, and a third call whose [select] finds nothing
    readable reports TimedOut. *)
Theorem C8_select_backend_drops_a_batch_that_holds_63 :
  (∀ s w t l rs,
     Posix.reachable_in_range s w → Posix._fds s ≠ [] → Posix._pending s = [] →
     63 ∈ Posix.reported s l →
     ∃ s' w',
       Posix.wait_one s w t (ReplyReady l :: rs) = Returns (None, s', w', rs) ∧
       Posix._pending s' = [] ∧ Posix._fds s' = Posix._fds s ∧
       Posix._reader s' = Posix.reported s l ∧
       waits w' = S (waits w) ∧ Posix.reachable_in_range s' w') ∧
  (∃ s1 w1 s2 w2,
     Posix.wait_one (Posix.create [5; 63]) World.empty None
         [ReplyReady [5; 63]; ReplyReady [5; 63]]
       = Returns (None, s1, w1, [ReplyReady [5; 63]]) ∧
     classify None (errno w1) = Error EBADF ∧
     trace w1 = [sys_select 64 None 2; sys_read (-1) (-1)] ∧
     Posix._pending s1 = [] ∧
     Posix.wait_one s1 w1 None [ReplyReady [5; 63]] = Returns (None, s2, w2, []) ∧
     Posix._pending s2 = []) ∧
  (∃ s1 w1 s2 w2 s3 w3,
     Posix.wait_one (Posix.create [5; 9]) World.empty None
         [ReplyReady [5; 9]; ReplyReady []]
       = Returns (Some 5, s1, w1, [ReplyReady []]) ∧
     Posix.wait_one s1 w1 None [ReplyReady []]
       = Returns (Some 9, s2, w2, [ReplyReady []]) ∧
     waits w2 = 1%nat ∧
     Posix.wait_one s2 w2 (Some 10) [ReplyReady []] = Returns (None, s3, w3, []) ∧
     classify None (errno w3) = TimedOut ∧ waits w3 = 2%nat).
Proof.
  split; [|split].
  - intros s w t l rs Hr Hne Hp H63.
    assert (Posix._breakPipe s = (-1, -1)) as Hb.
    { destruct Hr as (w0 & ops & _ & Hr). by apply posix_run_breakPipe in Hr. }
    pose proof (posix_wait_one_bit63 s w t l rs Hb Hne Hp H63) as Hw.
    eexists _, _. split; [exact Hw|]. simpl.
    do 3 (split; [done|]). split.
    + rewrite drain_waits, waits_log. simpl. rewrite waits_set_errno. lia.
    + destruct Hr as (w0 & ops & Hops & Hr).
      exists w0, (ops ++ [Wait t (ReplyReady l :: rs)]). split.
      * apply Forall_app. split; [done|]. by apply Forall_singleton.
      * rewrite posix_run_snoc, Hr. simpl. by rewrite Hw.
  - do 4 eexists. split; [vm_compute; reflexivity|].
    split; [vm_compute; reflexivity|]. split; [vm_compute; reflexivity|].
    split; [vm_compute; reflexivity|]. split; vm_compute; reflexivity.
  - do 6 eexists. split; [vm_compute; reflexivity|].
    split; [vm_compute; reflexivity|]. split; [vm_compute; reflexivity|].
    split; [vm_compute; reflexivity|]. split; vm_compute; reflexivity.
Qed.

Lemma C8_witness :
  ∃ s' w',
    Posix.wait_one (Posix.create [63; 5]) World.empty (Some 10) [ReplyReady [5; 63; 7]]
      = Returns (None, s', w', []) ∧
    Posix._pending s' = [] ∧ Posix._fds s' = Posix._fds (Posix.create [63; 5]) ∧
    Posix._reader s' = Posix.reported (Posix.create [63; 5]) [5; 63; 7] ∧
    waits w' = S (waits World.empty) ∧ Posix.reachable_in_range s' w'.
Proof.
  destruct C8_select_backend_drops_a_batch_that_holds_63 as (H & _).
  apply H.
  - exists World.empty, [Want 63; Want 5]. split.
    + apply (bool_decide_unpack _). vm_compute. exact I.
    + vm_compute. reflexivity.
  - vm_compute. discriminate.
  - reflexivity.
  - apply (bool_decide_unpack _). vm_compute. exact I.
Defined.

(** ** Registration in the select backend (C4, C2) *)

(** Supporting fact: with every descriptor once in [_fds], a batch hands out
    each reported descriptor exactly once. *)
Lemma posix_batch_exactly_once s l :
  Posix.inv s → NoDup (Posix._fds s) →
  filter (λ x, x ∈ Posix.reported s l) (Posix._fds s) ≡ₚ elements (Posix.reported s l).
Proof.
  intros (_ & _ & Hr) Hnd. apply NoDup_Permutation.
  - by apply NoDup_filter.
  - apply NoDup_elements.
  - intros x. rewrite list_elem_of_filter, elem_of_elements. split; [tauto|].
    intros Hx. split; [done|]. apply Hr.
    unfold Posix.reported in Hx. apply elem_of_filter in Hx. set_solver.
Qed.

(** Supporting fact: the kernel refuses a second registration, so the
    epoll interest list is left as it was. *)
Lemma epoll_want_read_again s w fd :
  fd ∈ Epoll.interest s w →
  Epoll.interest s (Epoll.want_read s w fd) = Epoll.interest s w.
Proof.
  unfold Epoll.interest, Epoll.want_read, epoll_ctl_add, fail.
  destruct (objs w !! Epoll._epollFd s) as [[l|c|p]|] eqn:Ho; simpl;
    rewrite ?Ho; try done.
  intros Hin. destruct (fd =? Epoll._epollFd s); simpl; rewrite ?Ho; [done|].
  rewrite bool_decide_eq_true_2 by done. simpl. by rewrite Ho.
Qed.

(** C4 (registration is idempotent), evaluated on the select backend:
    [want_read] always adds one more copy of the descriptor to [_fds],
    registered or not; registering 5 twice leaves [_fds] = [5; 5], a state
    different from the one after a single registration. *)
Theorem C4_select_backend_registers_a_second_copy :
  (∀ s fd, Posix._fds (Posix.want_read s fd) ≡ₚ fd :: Posix._fds s) ∧
  Posix._fds (Posix.create [5; 5]) = [5; 5] ∧
  ¬ NoDup (Posix._fds (Posix.create [5; 5])) ∧
  Posix.want_read (Posix.create [5]) 5 ≠ Posix.create [5].
Proof.
  split; [|split; [|split]].
  - intros s fd. simpl. rewrite merge_sort_Permutation.
    by rewrite Permutation_app_comm.
  - vm_compute. reflexivity.
  - intros Hnd. apply (bool_decide_pack _) in Hnd. vm_compute in Hnd. exact Hnd.
  - intros Heq. apply (f_equal Posix._fds) in Heq. vm_compute in Heq. discriminate.
Qed.

(** C2 (each ready descriptor exactly once), evaluated on the select
    backend.  First input: with 5 registered twice, one [select] reporting
    the set {5} is followed by two deliveries of 5, the second without a
    readiness call.  Second input: with 5 and 9 registered, a first batch
    in which only 5 was readable leaves [_reader] = {5}; when 5 and 9 are
    readable together afterwards only 5 is delivered, and with 9 alone
    readable the next call times out: 9 is lost. *)
Theorem C2_select_backend_repeats_and_loses_descriptors :
  (Posix.reported (Posix.create [5; 5]) [5] = {[5]} ∧
   ∃ s' w',
     Posix.wait_many 2 (Posix.create [5; 5]) World.empty None [ReplyReady [5]]
       = Returns ([Some 5; Some 5], s', w', []) ∧
     waits w' = 1%nat) ∧
  (∃ s1 w1 s2 w2 s3 w3,
     Posix.wait_one (Posix.create [5; 9]) World.empty None [ReplyReady [5]]
       = Returns (Some 5, s1, w1, []) ∧
     Posix._fds s1 = [5; 9] ∧ Posix._pending s1 = [] ∧
     Posix.wait_one s1 w1 None [ReplyReady [5; 9]] = Returns (Some 5, s2, w2, []) ∧
     Posix._fds s2 = [5; 9] ∧ Posix._pending s2 = [] ∧
     Posix.wait_one s2 w2 (Some 10) [ReplyReady [9]] = Returns (None, s3, w3, []) ∧
     classify None (errno w3) = TimedOut).
Proof.
  split; [split|].
  - apply (bool_decide_unpack _). vm_compute. exact I.
  - do 2 eexists. split; vm_compute; reflexivity.
  - do 6 eexists.
    split; [vm_compute; reflexivity|]. split; [vm_compute; reflexivity|].
    split; [vm_compute; reflexivity|]. split; [vm_compute; reflexivity|].
    split; [vm_compute; reflexivity|]. split; [vm_compute; reflexivity|].
    split; vm_compute; reflexivity.
Qed.

(** Supporting fact: [select] reports only descriptors still set in
    [_reader], and a batch leaves [_reader] equal to what was reported, so a
    watched descriptor that was not readable at one batch is not reported
    by any later one. *)
Lemma posix_reported_subseteq s l fd :
  fd ∈ Posix.reported s l → fd ∈ Posix._reader s.
Proof. unfold Posix.reported. rewrite elem_of_filter. set_solver. Qed.

(** ** The wakeup channel of the select backend (C3) *)

Section posix_channel.
Import Posix.

Lemma select_world w nfds rd tv r :
  objs (select w nfds rd tv r).2 = objs w ∧
  ∃ c, is_wait c = true ∧ trace (select w nfds rd tv r).2 = trace w ++ [c].
Proof.
  destruct r as [l|e]; simpl; (split; [done|]);
    eexists; (split; [|reflexivity]); reflexivity.
Qed.

(** With [_breakPipe] at its initial value the only system calls of
    [wait_one] are [select] and, in the drain branch, a [read] on descriptor
    -1, which fails. *)
Lemma posix_wait_one_world s w t rs r s' w' rs' :
  _breakPipe s = (-1, -1) → objs w !! (-1) = None →
  wait_one s w t rs = Returns (r, s', w', rs') →
  objs w' = objs w ∧
  ∀ c, c ∈ trace w' → c ∈ trace w ∨ is_wait c = true ∨ c = sys_read (-1) (-1).
Proof.
  intros Hb Hm. unfold wait_one. case_bool_decide; [done|].
  destruct (_pending s) as [|p q] eqn:Hp.
  2:{ rewrite (posix_try_pop_cons _ _ _ _ Hp). intros [= <- <- <- <-]. auto. }
  rewrite (posix_try_pop_nil _ _ Hp).
  destruct rs as [|r0 rs0]; [done|].
  pose proof (select_world (set_errno w EAGAIN)
    (List.last (_fds s) 0 + 1) (_reader s) (timeval_of <$> t) r0) as (Ho & c & Hc & Ht).
  destruct (select _ _ _ _ r0) as [[res out] w2]; simpl in *.
  assert (∀ x, x ∈ trace w2 →
            x ∈ trace w ∨ is_wait x = true ∨ x = sys_read (-1) (-1)) as Htr.
  { intros x. rewrite Ht, elem_of_app, list_elem_of_singleton.
    intros [?| ->]; auto. }
  destruct (res <=? 0) eqn:Hres; [intros [= <- <- <- <-]; done|].
  rewrite Hb. cbn [fst].
  destruct (FD_ISSET (-1) out).
  - intros [= <- <- <- <-]. rewrite drain_not_open by (by rewrite Ho).
    simpl. split; [done|]. intros x.
    rewrite elem_of_app, list_elem_of_singleton. intros [?| ->]; auto.
  - unfold try_pop_pending; simpl. rewrite Hp; simpl.
    destruct (filter _ (_fds s)); simpl; intros [= <- <- <- <-]; done.
Qed.

Lemma posix_wakeup_noop s w : _breakPipe s = (-1, -1) → wakeup s w = w.
Proof. intros Hb. unfold wakeup. by rewrite Hb. Qed.

Lemma posix_run_world ops : ∀ s w s' w',
  _breakPipe s = (-1, -1) → objs w !! (-1) = None →
  run (s, w) ops = Returns (s', w') →
  objs w' = objs w ∧
  ∀ c, c ∈ trace w' → c ∈ trace w ∨ is_wait c = true ∨ c = sys_read (-1) (-1).
Proof.
  induction ops as [|o ops IH]; intros s w s' w' Hb Hm; simpl.
  { intros [= <- <-]. auto. }
  intros (a & Hs & Hr)%exec_bind_returns. destruct a as [s1 w1].
  pose proof (posix_step_breakPipe _ _ _ _ _ Hs) as Hb1. rewrite Hb in Hb1.
  assert (objs w1 = objs w ∧
          ∀ c, c ∈ trace w1 → c ∈ trace w ∨ is_wait c = true ∨ c = sys_read (-1) (-1))
    as (Ho1 & Ht1).
  { destruct o as [fd|fd| |t rs]; simpl in Hs.
    - injection Hs as <- <-. auto.
    - injection Hs as <- <-. auto.
    - injection Hs as <- <-. rewrite posix_wakeup_noop by done. auto.
    - apply exec_bind_returns in Hs as (a & Hw & Ha).
      destruct a as [[[r s2] w2] rs2]. injection Ha as <- <-.
      exact (posix_wait_one_world _ _ _ _ _ _ _ _ Hb Hm Hw). }
  destruct (IH _ _ _ _ Hb1 ltac:(by rewrite Ho1) Hr) as (Ho & Ht).
  split; [congruence|]. intros c Hc.
  destruct (Ht c Hc) as [?|[?|?]]; auto.
Qed.

End posix_channel.

(** C3 (the wakeup channel is created once and destroyed once), evaluated on
    the select backend: whatever a client does with a default-constructed
    selector, [_breakPipe] keeps its initial value {-1, -1}; the descriptor
    table (in which no descriptor has the number -1) is the one the
    selector started with; the only system calls added to the log are
    readiness calls and failed reads of descriptor -1 (the drain loop on
    the pipe that does not exist); and [wakeup] changes nothing. *)
Theorem C3_select_backend_has_no_wakeup_channel w0 ops s w :
  objs w0 !! (-1) = None →
  Posix.run (Posix.init, w0) ops = Returns (s, w) →
  Posix._breakPipe s = (-1, -1) ∧
  objs w = objs w0 ∧
  (∀ c, c ∈ trace w → c ∈ trace w0 ∨ is_wait c = true ∨ c = sys_read (-1) (-1)) ∧
  Posix.wakeup s w = w.
Proof.
  intros Hm Hr.
  pose proof (posix_run_breakPipe _ _ _ _ _ Hr) as Hb. simpl in Hb.
  destruct (posix_run_world ops Posix.init w0 s w eq_refl Hm Hr) as (Ho & Ht).
  split; [done|]. split; [done|]. split; [done|].
  by apply posix_wakeup_noop.
Qed.

Lemma C3_witness :
  ∃ s w,
    Posix.run (Posix.init, World.empty)
      [Want 5; Want 63; Wakeup; Wait (Some 10) [ReplyReady [63]]] = Returns (s, w) ∧
    Posix._breakPipe s = (-1, -1) ∧
    objs w = objs World.empty ∧
    (∀ c, c ∈ trace w →
          c ∈ trace World.empty ∨ is_wait c = true ∨ c = sys_read (-1) (-1)) ∧
    Posix.wakeup s w = w.
Proof.
  eexists _, _. split; [vm_compute; reflexivity|].
  apply (C3_select_backend_has_no_wakeup_channel World.empty
           [Want 5; Want 63; Wakeup; Wait (Some 10) [ReplyReady [63]]]).
  - reflexivity.
  - vm_compute. reflexivity.
Defined.

(** Supporting fact for the epoll backend: the constructor makes exactly one
    [eventfd] call and registers the descriptor; the destructor closes it
    once and removes it from the table. *)
Lemma epoll_channel_lifecycle w0 r1 r2 s w :
  r1 ≠ r2 → Epoll.new w0 r1 r2 = Returns (s, w) →
  Epoll._eventFd s = r2 ∧
  objs w !! r2 = Some (EventObj 0) ∧
  Epoll.interest s w = [r2] ∧
  trace w = trace w0 ++ [sys_epoll_create1 r1; sys_eventfd r2; sys_epoll_ctl_add r1 r2 0] ∧
  objs (Epoll.destroy s w) !! r2 = None ∧
  trace (Epoll.destroy s w) = trace w ++ [sys_close r1 0; sys_close r2 0].
Proof.
  intros Hne. unfold Epoll.new, epoll_create1, eventfd.
  destruct (r1 =? -1) eqn:H1; [simpl; done|].
  destruct (r2 =? -1) eqn:H2; [simpl; rewrite H1; simpl; done|].
  simpl. rewrite H1. simpl. rewrite H2.
  unfold epoll_ctl_add. simpl.
  rewrite lookup_insert_ne, lookup_insert_eq by done.
  replace (r2 =? r1) with false by (symmetry; apply Z.eqb_neq; congruence).
  simpl. rewrite lookup_insert_eq. simpl. intros [= <- <-].
  unfold Epoll.interest, Epoll.destroy, close; simpl.
  rewrite !lookup_insert_eq. simpl.
  rewrite lookup_delete_ne, lookup_insert_ne, lookup_insert_eq by done. simpl.
  rewrite lookup_delete_eq.
  repeat split; try done; by rewrite <- !app_assoc.
Qed.

(** Supporting fact: a freshly constructed selector is wired. *)
Lemma epoll_new_wired w0 r1 r2 s w :
  r1 ≠ r2 → Epoll.new w0 r1 r2 = Returns (s, w) → Epoll.wired s w.
Proof.
  intros Hne Hn.
  assert (Epoll._epollFd s = r1) as He.
  { revert Hn. unfold Epoll.new, epoll_create1, eventfd.
    destruct (r1 =? -1) eqn:H1; [simpl; done|]. simpl. rewrite H1.
    destruct (r2 =? -1) eqn:H2; [simpl; done|]. simpl. rewrite H2.
    destruct (epoll_ctl_add _ r1 r2). by intros [= <- <-]. }
  destruct (epoll_channel_lifecycle _ _ _ _ _ Hne Hn) as (Hv & Ho & Hi & _).
  unfold Epoll.wired. rewrite Hv, He. split; [done|]. split.
  - unfold Epoll.interest in Hi. rewrite He in Hi.
    destruct (objs w !! r1) as [[l|c|p]|]; try done.
    exists l. split; [done|]. rewrite Hi. left.
  - exists 0. split; [done|]. unfold eventfd_max. lia.
Qed.

(** ** Signal interruption (C6) *)

(** Supporting fact for the epoll backend: a readiness call that fails with
    [EINTR] is followed by another one, and the caller sees only the result
    of the later replies. *)
Lemma epoll_retries_EINTR s w t rs il :
  objs w !! Epoll._epollFd s = Some (EpollObj il) →
  Epoll.wait_loop s w t (ReplyFail EINTR :: rs) =
    Epoll.wait_loop s
      (log (set_errno w EINTR)
           (sys_epoll_wait (Epoll._epollFd s) (Epoll.timeout_arg t) (-1)))
      t rs.
Proof. intros Ho. simpl. unfold epoll_wait. rewrite Ho. reflexivity. Qed.

(** C6 (EINTR is retried, never surfaced), evaluated on the select backend:
    when [select] fails with [EINTR], [wait_one] returns at once without a
    descriptor, after that single readiness call, with [errno] still
    [EINTR]; the replies that a retry would have consumed are left
    untouched. *)
Theorem C6_select_backend_surfaces_EINTR s w t rs :
  Posix._fds s ≠ [] → Posix._pending s = [] →
  ∃ w',
    Posix.wait_one s w t (ReplyFail EINTR :: rs) = Returns (None, s, w', rs) ∧
    errno w' = EINTR ∧ waits w' = S (waits w) ∧
    classify None (errno w') = Interrupted.
Proof.
  intros Hne Hp. unfold Posix.wait_one.
  rewrite bool_decide_eq_false_2 by done.
  rewrite (posix_try_pop_nil _ _ Hp). simpl.
  eexists. split; [by destruct s|].
  split; [done|]. split; [|done].
  rewrite waits_log. simpl. rewrite !waits_set_errno. lia.
Qed.

Lemma C6_witness :
  ∃ w',
    Posix.wait_one (Posix.create [5]) World.empty (Some 10)
        [ReplyFail EINTR; ReplyReady [5]]
      = Returns (None, Posix.create [5], w', [ReplyReady [5]]) ∧
    errno w' = EINTR ∧ waits w' = S (waits World.empty) ∧
    classify None (errno w') = Interrupted.
Proof.
  apply (C6_select_backend_surfaces_EINTR (Posix.create [5]) World.empty
           (Some 10) [ReplyReady [5]]).
  - vm_compute. discriminate.
  - reflexivity.
Defined.

(** ** A call that returns no descriptor (C10) *)

(** Supporting fact for the epoll backend: a call that returns no descriptor
    leaves the queue empty, as it found it, and the descriptor table, hence
    the interest list, as it was unless the eventfd was drained. *)
Lemma epoll_none_leaves_state s w t rs s' w' rs' :
  Epoll.wait_one s w t rs = Returns (None, s', w', rs') →
  Epoll._pending s = [] ∧ s' = s ∧
  ∀ fd, fd ≠ Epoll._eventFd s → objs w' !! fd = objs w !! fd.
Proof.
  unfold Epoll.wait_one, Epoll.try_pop_pending.
  destruct (Epoll._pending s) as [|p q] eqn:Hp; [|done].
  revert w. induction rs as [|r0 rs IH]; intros w; simpl; [done|].
  assert (objs (epoll_wait w (Epoll._epollFd s) Epoll.max_events
                  (Epoll.timeout_arg t) r0).2 = objs w) as Ho.
  { unfold epoll_wait. destruct (objs w !! Epoll._epollFd s) as [[l|c|p]|];
      [destruct r0| | |]; done. }
  destruct (epoll_wait w (Epoll._epollFd s) Epoll.max_events
              (Epoll.timeout_arg t) r0) as [[res evs] w1]. simpl in Ho.
  destruct (res =? 0).
  { intros [= <- <- <-]. simpl. by rewrite Ho. }
  destruct (res <? 0).
  { destruct (errno w1 =? EINTR).
    - intros H. destruct (IH _ H) as (_ & -> & Hf). do 2 (split; [done|]).
      intros fd Hfd. rewrite Hf by done. by rewrite Ho.
    - intros [= <- <- <-]. by rewrite Ho. }
  pose proof (epoll_triage_spec s w1 (take (Z.to_nat res) evs)) as Ht.
  destruct (Epoll.triage s w1 (take (Z.to_nat res) evs)) as [[s2 piped] w2].
  destruct Ht as (Hq & He1 & He2 & _ & Hf).
  unfold Epoll.try_pop_pending. destruct (Epoll._pending s2) as [|fd q] eqn:Hp2; [|done].
  intros [= <- <- <-]. split; [done|]. split.
  - destruct s, s2; simpl in *; congruence.
  - intros fd Hfd. simpl. rewrite Hf by done. by rewrite Ho.
Qed.

(** C10 (a timed-out call leaves the selector as it was), evaluated on the
    select backend: when [select] finds no watched descriptor readable,
    [wait_one] reports TimedOut and the bitmap [_reader] comes back empty,
    although [_fds] still lists the descriptors.  From then on no reply
    makes [wait_one] return a descriptor: every later call ends without
    one, however many descriptors are readable. *)
Theorem C10_select_backend_timeout_empties_the_bitmap s w t l rs :
  Posix._fds s ≠ [] → Posix._pending s = [] → Posix.reported s l = ∅ →
  ∃ s' w',
    Posix.wait_one s w t (ReplyReady l :: rs) = Returns (None, s', w', rs) ∧
    classify None (errno w') = TimedOut ∧
    Posix._reader s' = ∅ ∧ Posix._fds s' = Posix._fds s ∧ Posix._pending s' = [] ∧
    ∀ w1 t1 r1 rs1, ∃ w2,
      Posix.wait_one s' w1 t1 (r1 :: rs1) = Returns (None, s', w2, rs1).
Proof.
  intros Hne Hp Hout. unfold Posix.wait_one at 1.
  rewrite bool_decide_eq_false_2 by done.
  rewrite (posix_try_pop_nil _ _ Hp). simpl.
  fold (Posix.reported s l). rewrite Hout. simpl.
  eexists _, _. split; [reflexivity|]. split; [done|].
  do 3 (split; [done|]).
  intros w1 t1 r1 rs1. unfold Posix.wait_one.
  rewrite bool_decide_eq_false_2 by done. simpl.
  unfold Posix.try_pop_pending; simpl. rewrite Hp.
  destruct r1 as [l1|e1]; simpl.
  - replace (filter _ (∅ ∩ list_to_set l1)) with (∅ : gset Z).
    2:{ symmetry. apply leibniz_equiv, elem_of_equiv_empty. intros x.
        rewrite elem_of_filter. set_solver. }
    simpl. eexists. reflexivity.
  - eexists. reflexivity.
Qed.

Lemma C10_witness :
  ∃ s' w',
    Posix.wait_one (Posix.create [5]) World.empty (Some 10) [ReplyReady []]
      = Returns (None, s', w', []) ∧
    classify None (errno w') = TimedOut ∧
    Posix._reader s' = ∅ ∧ Posix._fds s' = Posix._fds (Posix.create [5]) ∧
    Posix._pending s' = [] ∧
    ∀ w1 t1 r1 rs1, ∃ w2,
      Posix.wait_one s' w1 t1 (r1 :: rs1) = Returns (None, s', w2, rs1).
Proof.
  apply (C10_select_backend_timeout_empties_the_bitmap (Posix.create [5])
           World.empty (Some 10) [] []).
  - vm_compute. discriminate.
  - reflexivity.
  - apply (bool_decide_unpack _). vm_compute. exact I.
Defined.

(** ** Zero and negative results of the readiness call (C5) *)

(** C5 as stated fails on a negative result caused by a signal: the select
    backend surfaces it with [errno = EINTR], which the caller reads as
    Interrupted, and the epoll backend does not surface it at all (here the
    retry times out). *)
Lemma C5_counterexample :
  (∃ s' w',
     Posix.wait_one (Posix.create [5]) World.empty (Some 10) [ReplyFail EINTR]
       = Returns (None, s', w', []) ∧
     classify None (errno w') = Interrupted) ∧
  (∃ s' w',
     Epoll.wait_one (Epoll.mk_selector 3 4 [])
         (mk_world {[3 := EpollObj [4; 5]; 4 := EventObj 0; 5 := FileObj true]} 0 []) (Some 10)
         [ReplyFail EINTR; ReplyReady []]
       = Returns (None, s', w', []) ∧
     classify None (errno w') = TimedOut).
Proof.
  split; do 2 eexists; split; vm_compute; reflexivity.
Qed.

(** C5, amended: in both backends a readiness call that reports nothing
    (result zero) is surfaced as TimedOut, and one that fails with an error
    code other than [EINTR] and [EAGAIN] is surfaced as Error with that
    code. *)
Theorem C5_zero_is_TimedOut_and_other_failures_are_Error :
  (∀ s w t l rs,
     Posix._fds s ≠ [] → Posix._pending s = [] → Posix.reported s l = ∅ →
     ∃ s' w',
       Posix.wait_one s w t (ReplyReady l :: rs) = Returns (None, s', w', rs) ∧
       classify None (errno w') = TimedOut) ∧
  (∀ s w t e rs,
     Posix._fds s ≠ [] → Posix._pending s = [] → e ≠ EINTR → e ≠ EAGAIN →
     ∃ s' w',
       Posix.wait_one s w t (ReplyFail e :: rs) = Returns (None, s', w', rs) ∧
       classify None (errno w') = Error e) ∧
  (∀ s w t rs il,
     Epoll._pending s = [] → objs w !! Epoll._epollFd s = Some (EpollObj il) →
     ∃ s' w',
       Epoll.wait_one s w t (ReplyReady [] :: rs) = Returns (None, s', w', rs) ∧
       classify None (errno w') = TimedOut) ∧
  (∀ s w t e rs il,
     Epoll._pending s = [] → objs w !! Epoll._epollFd s = Some (EpollObj il) →
     e ≠ EINTR → e ≠ EAGAIN →
     ∃ s' w',
       Epoll.wait_one s w t (ReplyFail e :: rs) = Returns (None, s', w', rs) ∧
       classify None (errno w') = Error e).
Proof.
  assert (∀ e, e ≠ EINTR → e ≠ EAGAIN → classify None e = Error e) as Hcl.
  { intros e H1 H2. unfold classify.
    destruct (Z.eqb_spec e EINTR); [done|]. by destruct (Z.eqb_spec e EAGAIN). }
  split; [|split; [|split]].
  - intros s w t l rs Hne Hp Hout. unfold Posix.wait_one.
    rewrite bool_decide_eq_false_2 by done.
    rewrite (posix_try_pop_nil _ _ Hp). simpl.
    fold (Posix.reported s l). rewrite Hout. simpl.
    eexists _, _. split; reflexivity.
  - intros s w t e rs Hne Hp H1 H2. unfold Posix.wait_one.
    rewrite bool_decide_eq_false_2 by done.
    rewrite (posix_try_pop_nil _ _ Hp). simpl.
    eexists _, _. split; [reflexivity|]. simpl. by apply Hcl.
  - intros s w t rs il Hp Ho. unfold Epoll.wait_one.
    rewrite (epoll_try_pop_nil _ Hp). simpl. unfold epoll_wait. rewrite Ho. simpl.
    eexists _, _. split; reflexivity.
  - intros s w t e rs il Hp Ho H1 H2. unfold Epoll.wait_one.
    rewrite (epoll_try_pop_nil _ Hp). simpl. unfold epoll_wait. rewrite Ho. simpl.
    replace (e =? EINTR) with false by (symmetry; by apply Z.eqb_neq).
    eexists _, _. split; [reflexivity|]. simpl. by apply Hcl.
Qed.

Lemma C5_witness :
  (∃ s' w',
     Posix.wait_one (Posix.create [5]) World.empty (Some 10) [ReplyReady [7]]
       = Returns (None, s', w', []) ∧
     classify None (errno w') = TimedOut) ∧
  (∃ s' w',
     Posix.wait_one (Posix.create [5]) World.empty (Some 10) [ReplyFail EBADF]
       = Returns (None, s', w', []) ∧
     classify None (errno w') = Error EBADF) ∧
  (∃ s' w',
     Epoll.wait_one (Epoll.mk_selector 3 4 [])
         (mk_world {[3 := EpollObj [4; 5]; 4 := EventObj 0; 5 := FileObj true]} 0 []) (Some 10)
         [ReplyReady []]
       = Returns (None, s', w', []) ∧
     classify None (errno w') = TimedOut) ∧
  (∃ s' w',
     Epoll.wait_one (Epoll.mk_selector 3 4 [])
         (mk_world {[3 := EpollObj [4; 5]; 4 := EventObj 0; 5 := FileObj true]} 0 []) (Some 10)
         [ReplyFail EBADF]
       = Returns (None, s', w', []) ∧
     classify None (errno w') = Error EBADF).
Proof.
  destruct C5_zero_is_TimedOut_and_other_failures_are_Error as (P0 & Pe & E0 & Ee).
  split; [|split; [|split]].
  - apply P0; [vm_compute; discriminate | reflexivity |].
    apply (bool_decide_unpack _). vm_compute. exact I.
  - apply Pe; [vm_compute; discriminate | reflexivity | done | done].
  - apply (E0 _ _ _ _ [4; 5]); [reflexivity | vm_compute; reflexivity].
  - apply (Ee _ _ _ _ _ [4; 5]); [reflexivity | vm_compute; reflexivity | done | done].
Defined.

(** ** Triage of one epoll batch (C7) *)

Section epoll_triage.
Import Epoll.

(** Reported descriptors other than the eventfd are only queued. *)
Lemma epoll_triage_others evs : ∀ s p w,
  _eventFd s ∉ evs →
  foldl triage_step (s, p, w) evs =
    (mk_selector (_epollFd s) (_eventFd s) (_pending s ++ evs), p, w).
Proof.
  induction evs as [|e evs IH]; intros s p w Hni; simpl.
  - rewrite app_nil_r. by destruct s.
  - apply not_elem_of_cons in Hni as [Hne Hni].
    replace (e =? _eventFd s) with false by (symmetry; apply Z.eqb_neq; congruence).
    rewrite IH by done. simpl. by rewrite <- app_assoc.
Qed.

(** The flag after triage of a duplicate-free batch: set exactly when the
    eventfd was reported and had a non-zero counter to hand over. *)
Lemma epoll_triage_flag s w evs c :
  NoDup evs → objs w !! _eventFd s = Some (EventObj c) →
  ((triage s w evs).1.2 = true ↔ _eventFd s ∈ evs ∧ c ≠ 0).
Proof.
  intros Hnd Ho. unfold triage.
  destruct (decide (_eventFd s ∈ evs)) as [Hin|Hni].
  - apply list_elem_of_split in Hin as (pre & post & ->).
    apply NoDup_app in Hnd as (_ & Hpre & Hpost).
    apply NoDup_cons in Hpost as [Hpost _].
    assert (_eventFd s ∉ pre) as Hpre'.
    { intros Hin. apply (Hpre _ Hin). left. }
    rewrite foldl_app, epoll_triage_others by done. simpl.
    rewrite Z.eqb_refl. unfold read. rewrite Ho. simpl.
    destruct (Z.eqb_spec c 0) as [->|Hc]; simpl;
      rewrite epoll_triage_others by done; simpl.
    + split; [done|]. by intros [_ ?].
    + split; [|done]. intros _. split; [|done].
      apply elem_of_app. right. left.
  - rewrite epoll_triage_others by done. simpl. split; [done|]. by intros [? _].
Qed.

(** The call that finds the queue empty and gets a non-empty batch. *)
Lemma epoll_wait_one_batch s w t l rs il :
  _pending s = [] →
  objs w !! _epollFd s = Some (EpollObj il) →
  take max_events l ≠ [] →
  let batch := take max_events l in
  let w1 := log w (sys_epoll_wait (_epollFd s) (timeout_arg t)
                     (Z.of_nat (length batch))) in
  let piped := (triage s w1 batch).1.2 in
  let w2 := (triage s w1 batch).2 in
  wait_one s w t (ReplyReady l :: rs) =
    match filter (λ x, x ≠ _eventFd s) batch with
    | fd :: q =>
        Returns (Some fd, mk_selector (_epollFd s) (_eventFd s) q, w2, rs)
    | [] =>
        Returns (None, s, set_errno w2 (if piped then EINTR else EAGAIN), rs)
    end.
Proof.
  intros Hp Ho Hne batch w1 piped w2.
  unfold wait_one. rewrite (epoll_try_pop_nil _ Hp).
  rewrite (epoll_wait_loop_ready _ _ _ _ _ _ Ho Hne). simpl.
  fold batch. fold w1. subst piped w2.
  pose proof (epoll_triage_spec s w1 batch) as Ht.
  destruct (triage s w1 batch) as [[s2 p2] w2']. simpl.
  destruct Ht as (Hq & He1 & He2 & _). rewrite Hp in Hq. simpl in Hq.
  unfold try_pop_pending. rewrite Hq.
  destruct (filter _ batch) as [|fd q] eqn:Hf.
  - f_equal. f_equal. f_equal. f_equal.
    destruct s, s2; simpl in *; congruence.
  - by rewrite He1, He2.
Qed.

End epoll_triage.

(** C7 (the queue is consulted before the flag).  After the triage of a
    non-empty batch by a call that found the queue empty: if the batch held
    any descriptor other than the eventfd, the first of them is returned and
    the others stay queued, whether or not the eventfd was in the batch; if
    it held none, the call returns no descriptor, with Interrupted when the
    flag [piped] is set and TimedOut otherwise.  For a duplicate-free batch
    the flag is set exactly when the eventfd was reported with a non-zero
    counter. *)
Theorem C7_epoll_queue_first_then_interrupted_else_timed_out s w t l rs il :
  Epoll._pending s = [] →
  objs w !! Epoll._epollFd s = Some (EpollObj il) →
  take Epoll.max_events l ≠ [] →
  let batch := take Epoll.max_events l in
  let w1 := log w (sys_epoll_wait (Epoll._epollFd s) (Epoll.timeout_arg t)
                     (Z.of_nat (length batch))) in
  let piped := (Epoll.triage s w1 batch).1.2 in
  let w2 := (Epoll.triage s w1 batch).2 in
  (∀ fd q,
     filter (λ x, x ≠ Epoll._eventFd s) batch = fd :: q →
     Epoll.wait_one s w t (ReplyReady l :: rs) =
       Returns (Some fd,
                Epoll.mk_selector (Epoll._epollFd s) (Epoll._eventFd s) q, w2, rs)) ∧
  (filter (λ x, x ≠ Epoll._eventFd s) batch = [] →
     ∃ w',
       Epoll.wait_one s w t (ReplyReady l :: rs) = Returns (None, s, w', rs) ∧
       classify None (errno w') = if piped then Interrupted else TimedOut) ∧
  (∀ c,
     NoDup batch → objs w !! Epoll._eventFd s = Some (EventObj c) →
     (piped = true ↔ Epoll._eventFd s ∈ batch ∧ c ≠ 0)).
Proof.
  intros Hp Ho Hne batch w1 piped w2.
  pose proof (epoll_wait_one_batch s w t l rs il Hp Ho Hne) as Hw.
  cbv zeta in Hw. fold batch in Hw. fold w1 in Hw. fold piped in Hw. fold w2 in Hw.
  split; [|split].
  - intros fd q Hf. by rewrite Hw, Hf.
  - intros Hf. rewrite Hw, Hf. eexists. split; [reflexivity|].
    simpl. by destruct piped.
  - intros c Hnd Hoc. subst piped. apply epoll_triage_flag; [done|].
    subst w1. simpl. done.
Qed.

Lemma C7_witness :
  (* the eventfd and two descriptors in one batch: the descriptor wins *)
  (∃ w2,
     Epoll.wait_one (Epoll.mk_selector 3 4 [])
         (mk_world {[3 := EpollObj [4; 5; 9]; 4 := EventObj 2; 5 := FileObj true; 9 := FileObj true]} 0 []) None
         [ReplyReady [4; 9; 5]]
       = Returns (Some 9, Epoll.mk_selector 3 4 [5], w2, [])) ∧
  (* the eventfd alone: Interrupted *)
  (∃ w',
     Epoll.wait_one (Epoll.mk_selector 3 4 [])
         (mk_world {[3 := EpollObj [4; 5; 9]; 4 := EventObj 2; 5 := FileObj true; 9 := FileObj true]} 0 []) None
         [ReplyReady [4]]
       = Returns (None, Epoll.mk_selector 3 4 [], w', []) ∧
     classify None (errno w') = Interrupted).
Proof.
  split.
  - eexists.
    apply (C7_epoll_queue_first_then_interrupted_else_timed_out
             (Epoll.mk_selector 3 4 [])
             (mk_world {[3 := EpollObj [4; 5; 9]; 4 := EventObj 2; 5 := FileObj true; 9 := FileObj true]} 0 [])
             None [4; 9; 5] [] [4; 5; 9]); [done| |done|].
    + vm_compute. reflexivity.
    + vm_compute. reflexivity.
  - destruct (C7_epoll_queue_first_then_interrupted_else_timed_out
                (Epoll.mk_selector 3 4 [])
                (mk_world {[3 := EpollObj [4; 5; 9]; 4 := EventObj 2; 5 := FileObj true; 9 := FileObj true]} 0 [])
                None [4] [] [4; 5; 9]) as (_ & H & _); [done| |done|].
    + vm_compute. reflexivity.
    + destruct H as (w' & Hw & Hc); [vm_compute; reflexivity|].
      exists w'. split; [exact Hw|]. exact Hc.
Defined.

(** ** The wakeup descriptor stays internal (C9) *)

Section wakeup_descriptor.

(** The select backend queues only descriptors found set in a bitmap in
    which the read end of the break pipe is not set. *)
Lemma posix_wait_one_queue s w t rs r s' w' rs' :
  Posix.wait_one s w t rs = Returns (r, s', w', rs') →
  Posix._breakPipe s' = Posix._breakPipe s ∧
  ∃ evs, from_option (λ fd, [fd]) [] r ++ Posix._pending s' = Posix._pending s ++ evs ∧
         fst (Posix._breakPipe s) ∉ evs.
Proof.
  unfold Posix.wait_one. case_bool_decide; [done|].
  destruct (Posix._pending s) as [|p q] eqn:Hp.
  2:{ rewrite (posix_try_pop_cons _ _ _ _ Hp). intros [= <- <- <- <-]. simpl.
      split; [done|]. exists []. rewrite app_nil_r. split; [done|]. apply not_elem_of_nil. }
  rewrite (posix_try_pop_nil _ _ Hp).
  destruct rs as [|r0 rs0]; [done|].
  destruct (select _ _ _ _ r0) as [[res out] w2]; simpl.
  destruct (res <=? 0).
  { intros [= <- <- <- <-]. simpl. split; [done|]. exists []. rewrite Hp.
    split; [done|]. apply not_elem_of_nil. }
  destruct (Posix.FD_ISSET _ out) eqn:Hbp.
  { intros [= <- <- <- <-]. simpl. split; [done|]. exists []. rewrite Hp.
    split; [done|]. apply not_elem_of_nil. }
  unfold Posix.try_pop_pending; simpl. rewrite Hp; simpl.
  assert (fst (Posix._breakPipe s) ∉
          filter (λ fd, Posix.FD_ISSET fd out = true) (Posix._fds s)) as Hni.
  { rewrite list_elem_of_filter. intros [Hset _]. congruence. }
  destruct (filter _ (Posix._fds s)) as [|fd q]; simpl;
    intros [= <- <- <- <-]; simpl; (split; [done|]); eexists;
    (split; [|exact Hni]); by rewrite ?Hp.
Qed.

Lemma posix_run_queue ops : ∀ s w s' w',
  fst (Posix._breakPipe s) ∉ Posix._pending s →
  Posix.run (s, w) ops = Returns (s', w') →
  fst (Posix._breakPipe s') ∉ Posix._pending s'.
Proof.
  induction ops as [|o ops IH]; intros s w s' w' Hi; simpl.
  { by intros [= <- <-]. }
  intros (a & Hs & Hr)%exec_bind_returns. destruct a as [s1 w1].
  eapply IH; [|exact Hr]. clear Hr IH.
  destruct o as [fd|fd| |t rs]; simpl in Hs.
  - by injection Hs as <- <-.
  - by injection Hs as <- <-.
  - by injection Hs as <- <-.
  - apply exec_bind_returns in Hs as (a & Hw & Ha).
    destruct a as [[[r s2] w2] rs2]. injection Ha as <- <-.
    apply posix_wait_one_queue in Hw as (Hb & evs & Hq & Hni).
    rewrite Hb. intros Hin.
    assert (fst (Posix._breakPipe s) ∈ Posix._pending s ++ evs) as Hin'.
    { rewrite <- Hq. apply elem_of_app. by right. }
    apply elem_of_app in Hin' as [?|?]; done.
Qed.

Lemma epoll_run_queue ops : ∀ s w s' w',
  Epoll._eventFd s ∉ Epoll._pending s →
  Epoll.run (s, w) ops = Returns (s', w') →
  Epoll._eventFd s' ∉ Epoll._pending s'.
Proof.
  induction ops as [|o ops IH]; intros s w s' w' Hi; simpl.
  { by intros [= <- <-]. }
  intros (a & Hs & Hr)%exec_bind_returns. destruct a as [s1 w1].
  eapply IH; [|exact Hr]. clear Hr IH.
  destruct o as [fd|fd| |t rs]; simpl in Hs.
  - by injection Hs as <- <-.
  - by injection Hs as <- <-.
  - by injection Hs as <- <-.
  - apply exec_bind_returns in Hs as (a & Hw & Ha).
    destruct a as [[[r s2] w2] rs2]. injection Ha as <- <-.
    apply epoll_wait_one_queue in Hw as (_ & He & evs & Hq).
    rewrite He. intros Hin.
    assert (Epoll._eventFd s ∈
            Epoll._pending s ++ filter (λ fd, fd ≠ Epoll._eventFd s) evs) as Hin'.
    { rewrite <- Hq. apply elem_of_app. by right. }
    apply elem_of_app in Hin' as [?|Hf]; [done|].
    apply list_elem_of_filter in Hf as [? _]. done.
Qed.

Lemma epoll_new_queue w0 r1 r2 s w :
  Epoll.new w0 r1 r2 = Returns (s, w) → Epoll._pending s = [].
Proof.
  unfold Epoll.new.
  destruct (epoll_create1 w0 r1) as [epfd w1].
  destruct (epfd =? -1); [done|].
  destruct (eventfd w1 0 r2) as [evfd w2].
  destruct (evfd =? -1); [done|].
  destruct (epoll_ctl_add w2 epfd evfd) as [? w3].
  by intros [= <- <-].
Qed.

(** The eventfd of a duplicate-free batch is read once: the flag tells
    whether its counter was non-zero, and the counter is zero afterwards. *)
Lemma epoll_triage_event s w evs c :
  NoDup evs → objs w !! Epoll._eventFd s = Some (EventObj c) →
  Epoll._eventFd s ∈ evs →
  objs (Epoll.triage s w evs).2 !! Epoll._eventFd s = Some (EventObj 0).
Proof.
  intros Hnd Ho Hin. unfold Epoll.triage.
  apply list_elem_of_split in Hin as (pre & post & ->).
  apply NoDup_app in Hnd as (_ & Hpre & Hpost).
  apply NoDup_cons in Hpost as [Hpost _].
  assert (Epoll._eventFd s ∉ pre) as Hpre'.
  { intros Hin. apply (Hpre _ Hin). left. }
  rewrite foldl_app, epoll_triage_others by done. simpl.
  rewrite Z.eqb_refl. unfold read. rewrite Ho. simpl.
  destruct (Z.eqb_spec c 0) as [->|Hc]; simpl;
    rewrite epoll_triage_others by done; simpl; [done|].
  by rewrite lookup_insert_eq.
Qed.

End wakeup_descriptor.

(** C9 as stated fails in its last part: a wakeup whose eventfd is reported
    together with a real descriptor is drained but never turned into
    Interrupted.  Here 5 is registered and readable and [wakeup] was called:
    the call returns 5, the counter is back at zero, and the following call
    times out. *)
Lemma C9_counterexample :
  ∃ s w,
    Epoll.reachable s w ∧ Epoll.counter s w = 1 ∧ Epoll.consistent s w [4; 5] ∧
    ∃ s1 w1,
      Epoll.wait_one s w None [ReplyReady [4; 5]; ReplyReady []]
        = Returns (Some 5, s1, w1, [ReplyReady []]) ∧
      Epoll.counter s1 w1 = 0 ∧
      ∃ s2 w2,
        Epoll.wait_one s1 w1 (Some 10) [ReplyReady []] = Returns (None, s2, w2, []) ∧
        classify None (errno w2) = TimedOut.
Proof.
  exists (Epoll.mk_selector 3 4 []),
         (mk_world {[3 := EpollObj [4; 5]; 4 := EventObj 1; 5 := FileObj true]} 0
            [sys_epoll_create1 3; sys_eventfd 4; sys_epoll_ctl_add 3 4 0;
             sys_epoll_ctl_add 3 5 0; sys_write 4 8]).
  split.
  { exists (mk_world {[5 := FileObj true]} 0 []), 3, 4, (Epoll.mk_selector 3 4 []),
      (mk_world {[3 := EpollObj [4]; 4 := EventObj 0; 5 := FileObj true]} 0
         [sys_epoll_create1 3; sys_eventfd 4; sys_epoll_ctl_add 3 4 0]),
      [Want 5; Wakeup].
    split; vm_compute; reflexivity. }
  split; [vm_compute; reflexivity|].
  split.
  { unfold Epoll.consistent. split; [|split; [|split]].
    - apply (bool_decide_unpack _). vm_compute. exact I.
    - intros fd Hfd. replace (Epoll.interest _ _) with [4; 5] by (vm_compute; reflexivity).
      done.
    - intros _. vm_compute. reflexivity.
    - intros _ _ _. set_solver. }
  do 2 eexists. split; [vm_compute; reflexivity|].
  split; [vm_compute; reflexivity|].
  do 2 eexists. split; vm_compute; reflexivity.
Qed.

(** C9, amended: in every reachable state of either backend the wakeup
    descriptor (the read end of the break pipe, the eventfd) is not in the
    pending queue, and [wait_one] never returns it.  In the epoll backend
    an eventfd reported in a duplicate-free batch is drained inside
    [wait_one] (its counter is zero afterwards) and is not queued; it is
    turned into Interrupted when the batch holds no other descriptor and the
    counter was non-zero, and otherwise the first other descriptor of the
    batch is returned. *)
Theorem C9_wakeup_descriptor_never_queued_nor_returned :
  (∀ s w,
     Posix.reachable s w →
     (fst (Posix._breakPipe s) ∉ Posix._pending s) ∧
     ∀ t rs r s' w' rs',
       Posix.wait_one s w t rs = Returns (r, s', w', rs') →
       r ≠ Some (fst (Posix._breakPipe s))) ∧
  (∀ s w,
     Epoll.reachable s w →
     (Epoll._eventFd s ∉ Epoll._pending s) ∧
     ∀ t rs r s' w' rs',
       Epoll.wait_one s w t rs = Returns (r, s', w', rs') →
       r ≠ Some (Epoll._eventFd s)) ∧
  (∀ s w t l rs il c,
     Epoll._pending s = [] →
     objs w !! Epoll._epollFd s = Some (EpollObj il) →
     objs w !! Epoll._eventFd s = Some (EventObj c) →
     NoDup (take Epoll.max_events l) →
     Epoll._eventFd s ∈ take Epoll.max_events l →
     ∃ r s' w',
       Epoll.wait_one s w t (ReplyReady l :: rs) = Returns (r, s', w', rs) ∧
       Epoll.counter s' w' = 0 ∧
       (Epoll._eventFd s' ∉ Epoll._pending s') ∧
       (filter (λ x, x ≠ Epoll._eventFd s) (take Epoll.max_events l) = [] →
        c ≠ 0 → r = None ∧ classify r (errno w') = Interrupted) ∧
       (∀ fd q,
          filter (λ x, x ≠ Epoll._eventFd s) (take Epoll.max_events l) = fd :: q →
          r = Some fd)).
Proof.
  split; [|split].
  - intros s w (w0 & ops & Hr).
    assert (fst (Posix._breakPipe s) ∉ Posix._pending s) as Hi.
    { eapply posix_run_queue; [|exact Hr]. simpl. apply not_elem_of_nil. }
    split; [done|]. intros t rs r s' w' rs' Hw ->.
    apply posix_wait_one_queue in Hw as (_ & evs & Hq & Hni). simpl in Hq.
    assert (fst (Posix._breakPipe s) ∈ Posix._pending s ++ evs) as Hin.
    { rewrite <- Hq. left. }
    apply elem_of_app in Hin as [?|?]; done.
  - intros s w (w0 & r1 & r2 & s0 & w1 & ops & Hn & Hr).
    assert (Epoll._eventFd s ∉ Epoll._pending s) as Hi.
    { eapply epoll_run_queue; [|exact Hr].
      rewrite (epoll_new_queue _ _ _ _ _ Hn). apply not_elem_of_nil. }
    split; [done|]. intros t rs r s' w' rs' Hw ->.
    apply epoll_wait_one_queue in Hw as (_ & _ & evs & Hq). simpl in Hq.
    assert (Epoll._eventFd s ∈
            Epoll._pending s ++ filter (λ fd, fd ≠ Epoll._eventFd s) evs) as Hin.
    { rewrite <- Hq. left. }
    apply elem_of_app in Hin as [?|Hf]; [done|].
    by apply list_elem_of_filter in Hf as [? _].
  - intros s w t l rs il c Hp Ho Hc Hnd Hin.
    assert (take Epoll.max_events l ≠ []) as Hne.
    { intros Hnil. rewrite Hnil in Hin. by apply not_elem_of_nil in Hin. }
    rewrite (epoll_wait_one_batch s w t l rs il Hp Ho Hne). cbv zeta.
    set (batch := take Epoll.max_events l) in *.
    set (w1 := log w _).
    assert (objs w1 !! Epoll._eventFd s = Some (EventObj c)) as Hc1 by done.
    pose proof (epoll_triage_event s w1 batch c Hnd Hc1 Hin) as Hdrained.
    pose proof (epoll_triage_flag s w1 batch c Hnd Hc1) as Hflag.
    destruct (filter (λ x, x ≠ Epoll._eventFd s) batch) as [|fd q] eqn:Hf.
    + eexists _, _, _. split; [reflexivity|].
      split; [unfold Epoll.counter; simpl; by rewrite Hdrained|].
      split; [rewrite Hp; apply not_elem_of_nil|].
      split; [|done]. intros _ Hc0. split; [done|].
      destruct Hflag as [_ Hflag]. rewrite Hflag by done. reflexivity.
    + eexists _, _, _. split; [reflexivity|].
      split; [unfold Epoll.counter; simpl; by rewrite Hdrained|].
      split.
      * simpl. intros Hq.
        assert (Epoll._eventFd s ∈ filter (λ x, x ≠ Epoll._eventFd s) batch) as Hq'
          by (rewrite Hf; by right).
        by apply list_elem_of_filter in Hq' as [? _].
      * split; [done|]. by intros fd' q' [= <- <-].
Qed.

Lemma C9_witness :
  ((fst (Posix._breakPipe (Posix.create [5])) ∉ Posix._pending (Posix.create [5])) ∧
   ∀ t rs r s' w' rs',
     Posix.wait_one (Posix.create [5]) World.empty t rs = Returns (r, s', w', rs') →
     r ≠ Some (fst (Posix._breakPipe (Posix.create [5])))) ∧
  ((4 ∉ Epoll._pending (Epoll.mk_selector 3 4 [])) ∧
   ∀ t rs r s' w' rs',
     Epoll.wait_one (Epoll.mk_selector 3 4 [])
         (mk_world {[3 := EpollObj [4; 5]; 4 := EventObj 0; 5 := FileObj true]} 0
            [sys_epoll_create1 3; sys_eventfd 4; sys_epoll_ctl_add 3 4 0;
             sys_epoll_ctl_add 3 5 0]) t rs
       = Returns (r, s', w', rs') →
     r ≠ Some 4) ∧
  (∃ r s' w',
     Epoll.wait_one (Epoll.mk_selector 3 4 [])
         (mk_world {[3 := EpollObj [4; 5]; 4 := EventObj 1; 5 := FileObj true]} 0 []) None
         [ReplyReady [4]]
       = Returns (r, s', w', []) ∧
     Epoll.counter s' w' = 0 ∧
     (Epoll._eventFd s' ∉ Epoll._pending s') ∧
     (filter (λ x, x ≠ 4) (take Epoll.max_events [4]) = [] →
      1 ≠ 0 → r = None ∧ classify r (errno w') = Interrupted) ∧
     (∀ fd q,
        filter (λ x, x ≠ 4) (take Epoll.max_events [4]) = fd :: q → r = Some fd)).
Proof.
  destruct C9_wakeup_descriptor_never_queued_nor_returned as (Hp & Hr & He).
  split; [|split].
  - apply Hp. exists World.empty, [Want 5]. vm_compute. reflexivity.
  - apply (Hr (Epoll.mk_selector 3 4 [])).
    exists (mk_world {[5 := FileObj true]} 0 []), 3, 4, (Epoll.mk_selector 3 4 []),
      (mk_world {[3 := EpollObj [4]; 4 := EventObj 0; 5 := FileObj true]} 0
         [sys_epoll_create1 3; sys_eventfd 4; sys_epoll_ctl_add 3 4 0]),
      [Want 5].
    split; vm_compute; reflexivity.
  - apply (He (Epoll.mk_selector 3 4 [])
              (mk_world {[3 := EpollObj [4; 5]; 4 := EventObj 1; 5 := FileObj true]} 0 [])
              None [4] [] [4; 5] 1).
    + reflexivity.
    + vm_compute. reflexivity.
    + vm_compute. reflexivity.
    + apply (bool_decide_unpack _). vm_compute. exact I.
    + apply (bool_decide_unpack _). vm_compute. exact I.
Defined.

(** ** Wakeup before the next retrieval (C1) *)

Section epoll_wakeup.
Import Epoll.

(** Nothing a client can do turns the eventfd into another object or makes
    its counter negative. *)
Lemma epoll_ctl_add_event_at w epfd fd x :
  event_at w x → event_at (epoll_ctl_add w epfd fd).2 x.
Proof.
  intros (c & Hc & Hc0). exists c. split; [|done].
  unfold epoll_ctl_add, fail.
  destruct (objs w !! epfd) as [[l|c1|p]|] eqn:Ho; simpl; try done.
  destruct (fd =? epfd); [done|]. case_bool_decide; [done|].
  destruct (objs w !! fd) as [o|]; [|done].
  destruct (can_poll o); [|done]. simpl.
  rewrite lookup_insert_ne; [done|]. intros ->. congruence.
Qed.

Lemma epoll_ctl_del_event_at w epfd fd x :
  event_at w x → event_at (epoll_ctl_del w epfd fd).2 x.
Proof.
  intros (c & Hc & Hc0). exists c. split; [|done].
  unfold epoll_ctl_del, fail.
  destruct (objs w !! epfd) as [[l|c1|p]|] eqn:Ho; simpl; try done.
  case_bool_decide.
  - simpl. rewrite lookup_insert_ne; [done|]. intros ->. congruence.
  - destruct (objs w !! fd) as [o|]; [|done].
    destruct (negb (can_poll o)); [done|]. by destruct (fd =? epfd).
Qed.

Lemma write_event_at w fd len v x :
  0 ≤ v → event_at w x → event_at (write w fd len v).2 x.
Proof.
  intros Hv (c & Hc & Hc0). unfold write, fail.
  destruct (objs w !! fd) as [[l|c1|p]|] eqn:Ho; simpl; try by exists c.
  destruct (len <? 8); [by exists c|].
  destruct (eventfd_max <? c1 + v); [by exists c|]. simpl.
  destruct (decide (x = fd)) as [->|Hne].
  - exists (c1 + v). simpl. rewrite lookup_insert_eq. split; [done|].
    assert (c1 = c) by congruence. lia.
  - exists c. simpl. by rewrite lookup_insert_ne.
Qed.

Lemma read_event_at w fd len x :
  event_at w x → event_at (read w fd len).2 x.
Proof.
  intros (c & Hc & Hc0). unfold read, fail.
  destruct (objs w !! fd) as [[l|c1|p]|] eqn:Ho; simpl; try by exists c.
  destruct (len <? 8); [by exists c|].
  destruct (c1 =? 0); [by exists c|]. simpl.
  destruct (decide (x = fd)) as [->|Hne].
  - exists 0. simpl. by rewrite lookup_insert_eq.
  - exists c. simpl. by rewrite lookup_insert_ne.
Qed.

Lemma triage_event_at evs : ∀ s p w x,
  event_at w x → event_at (foldl triage_step (s, p, w) evs).2 x.
Proof.
  induction evs as [|e evs IH]; intros s p w x Hx; simpl; [done|].
  destruct (e =? _eventFd s).
  - pose proof (read_event_at w (_eventFd s) 8 x Hx) as Hr.
    destruct (read w (_eventFd s) 8) as [n w1]. by apply IH.
  - by apply IH.
Qed.

Lemma epoll_wait_loop_event_at t rs : ∀ s w r s' w' rs' x,
  wait_loop s w t rs = Returns (r, s', w', rs') → event_at w x → event_at w' x.
Proof.
  induction rs as [|r0 rs IH]; intros s w r s' w' rs' x; simpl; [done|].
  assert (objs (epoll_wait w (_epollFd s) max_events (timeout_arg t) r0).2 = objs w)
    as Ho.
  { unfold epoll_wait. destruct (objs w !! _epollFd s) as [[l|c|p]|];
      [destruct r0| | |]; done. }
  destruct (epoll_wait w (_epollFd s) max_events (timeout_arg t) r0)
    as [[res evs] w1]. simpl in Ho.
  intros Hw Hx.
  assert (event_at w1 x) as Hx1.
  { destruct Hx as (c & Hc & Hc0). exists c. by rewrite Ho. }
  revert Hw. destruct (res =? 0); [by intros [= <- <- <- <-]|].
  destruct (res <? 0).
  { destruct (errno w1 =? EINTR); [intros Hw; by eapply IH|].
    by intros [= <- <- <- <-]. }
  pose proof (triage_event_at (take (Z.to_nat res) evs) s false w1 x Hx1) as Ht.
  unfold triage.
  destruct (foldl triage_step (s, false, w1) (take (Z.to_nat res) evs))
    as [[s2 piped] w2]. simpl in Ht.
  destruct (try_pop_pending s2) as [[fd|] s3]; by intros [= <- <- <- <-].
Qed.

Lemma epoll_step_event_at s w o s' w' :
  step (s, w) o = Returns (s', w') →
  event_at w (_eventFd s) → event_at w' (_eventFd s').
Proof.
  destruct o as [fd|fd| |t rs]; simpl.
  - intros [= <- <-]. apply epoll_ctl_add_event_at.
  - intros [= <- <-]. apply epoll_ctl_del_event_at.
  - intros [= <- <-]. by apply write_event_at.
  - intros (a & Hw & Ha)%exec_bind_returns.
    destruct a as [[[r s1] w1] rs1]. injection Ha as <- <-.
    pose proof (epoll_wait_one_queue _ _ _ _ _ _ _ _ Hw) as (_ & -> & _).
    revert Hw. unfold wait_one. destruct (try_pop_pending s) as [[fd|] s0] eqn:Hpop.
    + by intros [= <- <- <- <-].
    + assert (s0 = s) as ->.
      { revert Hpop. unfold try_pop_pending. by destruct (_pending s); intros [= <-]. }
      apply epoll_wait_loop_event_at.
Qed.

Lemma epoll_reachable_event_at s w :
  reachable s w → event_at w (_eventFd s).
Proof.
  intros (w0 & r1 & r2 & s0 & w1 & ops & Hn & Hr).
  assert (event_at w1 (_eventFd s0)) as H0.
  { revert Hn. unfold new, epoll_create1, eventfd.
    destruct (r1 =? -1) eqn:H1; [simpl; done|]. simpl. rewrite H1.
    destruct (r2 =? -1) eqn:H2; [simpl; done|]. simpl. rewrite H2.
    pose proof (epoll_ctl_add_event_at
      (log (set_objs (log (set_objs w0 (<[r1:=EpollObj []]> (objs w0)))
                          (sys_epoll_create1 r1))
              (<[r2:=EventObj 0]> (<[r1:=EpollObj []]> (objs w0))))
           (sys_eventfd r2)) r1 r2 r2) as Ha.
    destruct (epoll_ctl_add _ r1 r2) as [? w3]. intros [= <- <-]. simpl.
    apply Ha. exists 0. simpl. by rewrite lookup_insert_eq. }
  clear Hn. revert s0 w1 Hr H0.
  induction ops as [|o ops IH]; intros s0 w1; simpl.
  { by intros [= <- <-]. }
  intros (a & Hs & Hr)%exec_bind_returns H0. destruct a as [s1 w2].
  eapply IH; [exact Hr|]. by eapply epoll_step_event_at.
Qed.

(** [wakeup] leaves the eventfd with a counter above zero: it adds one, and
    when the counter is already at its maximum the write fails and the
    counter stays where it is. *)
Lemma epoll_wakeup_counter s w il :
  event_at w (_eventFd s) →
  objs w !! _epollFd s = Some (EpollObj il) →
  (∃ c, 0 < c ∧ objs (wakeup s w) !! _eventFd s = Some (EventObj c)) ∧
  objs (wakeup s w) !! _epollFd s = Some (EpollObj il) ∧
  waits (wakeup s w) = waits w.
Proof.
  intros (c & Hc & Hc0) Hl.
  assert (_epollFd s ≠ _eventFd s) as Hne by (intros He; congruence).
  unfold wakeup, write, fail. rewrite Hc. simpl.
  destruct (eventfd_max <? c + 1) eqn:Hmax; simpl.
  - apply Z.ltb_lt in Hmax. unfold eventfd_max in Hmax.
    split; [exists c; split; [lia|done]|]. split; [done|].
    rewrite waits_log. simpl. rewrite waits_set_errno. lia.
  - split; [exists (c + 1); split; [lia|by rewrite lookup_insert_eq]|].
    split; [by rewrite lookup_insert_ne|].
    rewrite waits_log. simpl. rewrite waits_set_objs. lia.
Qed.

(** Readiness calls cut short by signals are repeated; they change neither
    the selector nor the descriptor table. *)
Lemma epoll_wait_loop_EINTRs s t rs n : ∀ w il,
  objs w !! _epollFd s = Some (EpollObj il) →
  ∃ w1,
    wait_loop s w t (replicate n (ReplyFail EINTR) ++ rs) = wait_loop s w1 t rs ∧
    objs w1 = objs w ∧ waits w1 = (waits w + n)%nat.
Proof.
  induction n as [|n IH]; intros w il Ho.
  - exists w. split; [done|]. split; [done|lia].
  - cbn [replicate app]. rewrite (epoll_retries_EINTR _ _ _ _ _ Ho).
    destruct (IH (log (set_errno w EINTR)
                    (sys_epoll_wait (_epollFd s) (timeout_arg t) (-1))) il)
      as (w1 & Hw & Ho1 & Hn1); [done|].
    exists w1. split; [done|]. split; [done|].
    rewrite Hn1, waits_log. simpl. rewrite waits_set_errno. lia.
Qed.

(** A consistent report that names no real descriptor, in a world whose
    eventfd counter is non-zero, is the eventfd alone. *)
Lemma epoll_consistent_only_event s w evs :
  _eventFd s ∈ interest s w → 0 < counter s w →
  consistent s w evs → (∀ fd, fd ∈ evs → fd = _eventFd s) →
  evs = [_eventFd s].
Proof.
  intros Hin Hc (Hnd & _ & _ & Hlevel) Hall.
  destruct evs as [|a [|b evs]].
  - exfalso. assert (_eventFd s ∈ []) as H by (apply Hlevel; simpl; [done|done|unfold max_events; lia]).
    by apply not_elem_of_nil in H.
  - f_equal. apply Hall. left.
  - exfalso. apply NoDup_cons in Hnd as [Hni _]. apply Hni.
    rewrite (Hall a) by left. rewrite (Hall b) by (right; left). left.
Qed.

(** The interest list is the list of an open epoll instance. *)
Lemma epoll_interest_open s w fd :
  fd ∈ interest s w →
  ∃ il, objs w !! _epollFd s = Some (EpollObj il) ∧ fd ∈ il.
Proof.
  unfold interest.
  destruct (objs w !! _epollFd s) as [[l|c|p]|];
    try (intros H; by apply not_elem_of_nil in H).
  intros H. by exists l.
Qed.

End epoll_wakeup.

(** C1 as stated fails in the epoll backend in three ways.  With a
    descriptor still queued from an earlier batch, the call after [wakeup]
    returns that descriptor without asking the kernel; with a registered
    descriptor readable at the same time, the call after [wakeup] returns
    that descriptor; and once the client has passed the number of the
    eventfd to [cancel_read], the eventfd is off the interest list, no
    report names it, and the call after [wakeup] waits out its timeout. *)
Lemma C1_counterexample :
  (∃ s w s' w',
     Epoll.reachable s w ∧ Epoll._pending s = [9] ∧ 5 ∈ Epoll.interest s w ∧
     Epoll.wait_one s (Epoll.wakeup s w) (Some 1000) []
       = Returns (Some 9, s', w', []) ∧
     classify (Some 9) (errno w') ≠ Interrupted) ∧
  (∃ s w s' w',
     Epoll.reachable s w ∧ Epoll._pending s = [] ∧ 5 ∈ Epoll.interest s w ∧
     Epoll.consistent s (Epoll.wakeup s w) [5; 4] ∧
     Epoll.wait_one s (Epoll.wakeup s w) (Some 1000) [ReplyReady [5; 4]]
       = Returns (Some 5, s', w', []) ∧
     classify (Some 5) (errno w') ≠ Interrupted) ∧
  (∃ s w s' w',
     Epoll.reachable s w ∧ Epoll._pending s = [] ∧
     Epoll.interest s w = [5] ∧ Epoll._eventFd s = 4 ∧
     Epoll.counter s (Epoll.wakeup s w) = 1 ∧
     Epoll.consistent s (Epoll.wakeup s w) [] ∧
     Epoll.wait_one s (Epoll.wakeup s w) (Some 1000) [ReplyReady []]
       = Returns (None, s', w', []) ∧
     classify None (errno w') = TimedOut).
Proof.
  split; [|split].
  - exists (Epoll.mk_selector 3 4 [9]),
      (mk_world {[3 := EpollObj [4; 5; 9]; 4 := EventObj 0;
                  5 := FileObj true; 9 := FileObj true]} 0
         [sys_epoll_create1 3; sys_eventfd 4; sys_epoll_ctl_add 3 4 0;
          sys_epoll_ctl_add 3 5 0; sys_epoll_ctl_add 3 9 0;
          sys_epoll_wait 3 (-1) 2]).
    do 2 eexists. split.
    { exists (mk_world {[5 := FileObj true; 9 := FileObj true]} 0 []), 3, 4,
        (Epoll.mk_selector 3 4 []),
        (mk_world {[3 := EpollObj [4]; 4 := EventObj 0;
                    5 := FileObj true; 9 := FileObj true]} 0
           [sys_epoll_create1 3; sys_eventfd 4; sys_epoll_ctl_add 3 4 0]),
        [Want 5; Want 9; Wait None [ReplyReady [5; 9]]].
      split; vm_compute; reflexivity. }
    split; [reflexivity|].
    split; [replace (Epoll.interest _ _) with [4; 5; 9] by (vm_compute; reflexivity);
            set_solver|].
    split; [vm_compute; reflexivity|]. done.
  - exists (Epoll.mk_selector 3 4 []),
      (mk_world {[3 := EpollObj [4; 5]; 4 := EventObj 0; 5 := FileObj true]} 0
         [sys_epoll_create1 3; sys_eventfd 4; sys_epoll_ctl_add 3 4 0;
          sys_epoll_ctl_add 3 5 0]).
    do 2 eexists. split.
    { exists (mk_world {[5 := FileObj true]} 0 []), 3, 4, (Epoll.mk_selector 3 4 []),
        (mk_world {[3 := EpollObj [4]; 4 := EventObj 0; 5 := FileObj true]} 0
           [sys_epoll_create1 3; sys_eventfd 4; sys_epoll_ctl_add 3 4 0]),
        [Want 5].
      split; vm_compute; reflexivity. }
    split; [reflexivity|].
    split; [replace (Epoll.interest _ _) with [4; 5] by (vm_compute; reflexivity);
            set_solver|].
    split.
    { unfold Epoll.consistent. split; [|split; [|split]].
      - apply (bool_decide_unpack _). vm_compute. exact I.
      - intros fd Hfd.
        replace (Epoll.interest _ _) with [4; 5] by (vm_compute; reflexivity).
        set_solver.
      - intros _. vm_compute. reflexivity.
      - intros _ _ _. set_solver. }
    split; [vm_compute; reflexivity|]. done.
  - exists (Epoll.mk_selector 3 4 []),
      (mk_world {[3 := EpollObj [5]; 4 := EventObj 0; 5 := FileObj true]} 0
         [sys_epoll_create1 3; sys_eventfd 4; sys_epoll_ctl_add 3 4 0;
          sys_epoll_ctl_add 3 5 0; sys_epoll_ctl_del 3 4 0]).
    do 2 eexists. split.
    { exists (mk_world {[5 := FileObj true]} 0 []), 3, 4, (Epoll.mk_selector 3 4 []),
        (mk_world {[3 := EpollObj [4]; 4 := EventObj 0; 5 := FileObj true]} 0
           [sys_epoll_create1 3; sys_eventfd 4; sys_epoll_ctl_add 3 4 0]),
        [Want 5; Cancel 4].
      split; vm_compute; reflexivity. }
    split; [reflexivity|].
    split; [vm_compute; reflexivity|]. split; [reflexivity|].
    split; [vm_compute; reflexivity|].
    split.
    { unfold Epoll.consistent. split; [|split; [|split]].
      - apply NoDup_nil_2.
      - intros fd Hfd. by apply not_elem_of_nil in Hfd.
      - intros Hfd. by apply not_elem_of_nil in Hfd.
      - replace (Epoll.interest _ _) with [5] by (vm_compute; reflexivity).
        simpl. intros Hin. exfalso. set_solver. }
    split; vm_compute; reflexivity.
Qed.

(** C1, amended (epoll backend).  In a state a client can reach in which the
    eventfd is still on the interest list: if [wakeup] is called while the
    pending queue is empty, and the next readiness report, consistent with
    the kernel state, names no real descriptor, then the next [wait_one]
    returns Interrupted, after repeating the readiness calls that signals
    cut short; no consistent report is empty, so the call does not wait out
    its timeout.  If instead the report names a real descriptor, the first
    one it names is returned; and if a descriptor is still queued, that
    descriptor is returned without a readiness call. *)
Theorem C1_epoll_wakeup_interrupts_next_wait :
  (∀ s w t n evs rs,
     Epoll.reachable s w → Epoll._eventFd s ∈ Epoll.interest s w →
     Epoll._pending s = [] →
     Epoll.consistent s (Epoll.wakeup s w) evs →
     (∀ fd, fd ∈ evs → fd = Epoll._eventFd s) →
     ¬ Epoll.consistent s (Epoll.wakeup s w) [] ∧
     ∃ w',
       Epoll.wait_one s (Epoll.wakeup s w) t
           (replicate n (ReplyFail EINTR) ++ ReplyReady evs :: rs)
         = Returns (None, s, w', rs) ∧
       classify None (errno w') = Interrupted ∧
       Epoll.counter s w' = 0 ∧
       waits w' = (waits w + n + 1)%nat) ∧
  (∀ s w t n evs rs fd q,
     Epoll.reachable s w → Epoll._eventFd s ∈ Epoll.interest s w →
     Epoll._pending s = [] →
     filter (λ x, x ≠ Epoll._eventFd s) (take Epoll.max_events evs) = fd :: q →
     ∃ w',
       Epoll.wait_one s (Epoll.wakeup s w) t
           (replicate n (ReplyFail EINTR) ++ ReplyReady evs :: rs)
         = Returns (Some fd,
                    Epoll.mk_selector (Epoll._epollFd s) (Epoll._eventFd s) q,
                    w', rs) ∧
       waits w' = (waits w + n + 1)%nat) ∧
  (∀ s w t rs fd q,
     Epoll._pending s = fd :: q →
     Epoll.wait_one s (Epoll.wakeup s w) t rs
       = Returns (Some fd,
                  Epoll.mk_selector (Epoll._epollFd s) (Epoll._eventFd s) q,
                  Epoll.wakeup s w, rs)).
Proof.
  split; [|split].
  - intros s w t n evs rs Hreach Hreg Hp Hcons Hall.
    pose proof (epoll_reachable_event_at _ _ Hreach) as Hev.
    destruct (epoll_interest_open _ _ _ Hreg) as (il & Hl & Hin).
    destruct (epoll_wakeup_counter s w il Hev Hl) as ((c & Hc0 & Hc') & Hl' & Hwaits).
    assert (Epoll._eventFd s ∈ Epoll.interest s (Epoll.wakeup s w)) as Hin'.
    { unfold Epoll.interest. by rewrite Hl'. }
    assert (0 < Epoll.counter s (Epoll.wakeup s w)) as Hpos.
    { unfold Epoll.counter. by rewrite Hc'. }
    split.
    { intros (_ & _ & _ & Hlevel).
      assert (Epoll._eventFd s ∈ []) as H
        by (apply Hlevel; simpl; [done|done|unfold Epoll.max_events; lia]).
      by apply not_elem_of_nil in H. }
    rewrite (epoll_consistent_only_event _ _ _ Hin' Hpos Hcons Hall).
    unfold Epoll.wait_one. rewrite (epoll_try_pop_nil _ Hp).
    destruct (epoll_wait_loop_EINTRs s t (ReplyReady [Epoll._eventFd s] :: rs) n
                (Epoll.wakeup s w) il Hl') as (w1 & Hloop & Ho1 & Hn1).
    rewrite Hloop.
    assert (objs w1 !! Epoll._epollFd s = Some (EpollObj il)) as Hl1 by (by rewrite Ho1).
    assert (objs w1 !! Epoll._eventFd s = Some (EventObj c)) as Hc1 by (by rewrite Ho1).
    rewrite (epoll_wait_loop_ready _ _ _ _ _ _ Hl1) by done.
    cbn [take Epoll.max_events length]. unfold Epoll.triage. simpl.
    rewrite Z.eqb_refl. unfold read. simpl. rewrite Hc1. simpl.
    replace (c =? 0) with false by (symmetry; apply Z.eqb_neq; lia).
    simpl. rewrite (epoll_try_pop_nil _ Hp).
    eexists. split; [reflexivity|]. split; [done|].
    split.
    + unfold Epoll.counter. simpl. by rewrite lookup_insert_eq.
    + rewrite waits_set_errno, waits_log. simpl. rewrite waits_set_objs, waits_log.
      simpl. lia.
  - intros s w t n evs rs fd q Hreach Hreg Hp Hf.
    pose proof (epoll_reachable_event_at _ _ Hreach) as Hev.
    destruct (epoll_interest_open _ _ _ Hreg) as (il & Hl & Hin).
    destruct (epoll_wakeup_counter s w il Hev Hl) as (_ & Hl' & Hwaits).
    destruct (epoll_wait_loop_EINTRs s t (ReplyReady evs :: rs) n
                (Epoll.wakeup s w) il Hl') as (w1 & Hloop & Ho1 & Hn1).
    assert (objs w1 !! Epoll._epollFd s = Some (EpollObj il)) as Hl1 by (by rewrite Ho1).
    assert (take Epoll.max_events evs ≠ []) as Hne.
    { intros Hnil. by rewrite Hnil in Hf. }
    pose proof (epoll_wait_one_batch s w1 t evs rs il Hp Hl1 Hne) as Hb.
    cbv zeta in Hb. rewrite Hf in Hb.
    pose proof (epoll_triage_spec s
      (log w1 (sys_epoll_wait (Epoll._epollFd s) (Epoll.timeout_arg t)
                 (Z.of_nat (length (take Epoll.max_events evs)))))
      (take Epoll.max_events evs)) as Ht.
    destruct (Epoll.triage s _ (take Epoll.max_events evs)) as [[s2 p2] w2] eqn:Htri.
    destruct Ht as (_ & _ & _ & Hw2 & _).
    exists w2. split.
    + unfold Epoll.wait_one in *. rewrite (epoll_try_pop_nil _ Hp) in *.
      rewrite Hloop. exact Hb.
    + rewrite Hw2, waits_log. simpl. lia.
  - intros s w t rs fd q Hp. unfold Epoll.wait_one.
    by rewrite (epoll_try_pop_cons _ _ _ Hp).
Qed.

Lemma C1_witness :
  (¬ Epoll.consistent (Epoll.mk_selector 3 4 [])
       (Epoll.wakeup (Epoll.mk_selector 3 4 [])
          (mk_world {[3 := EpollObj [4; 5]; 4 := EventObj 0; 5 := FileObj true]} 0
             [sys_epoll_create1 3; sys_eventfd 4; sys_epoll_ctl_add 3 4 0;
              sys_epoll_ctl_add 3 5 0])) [] ∧
   ∃ w',
     Epoll.wait_one (Epoll.mk_selector 3 4 [])
         (Epoll.wakeup (Epoll.mk_selector 3 4 [])
            (mk_world {[3 := EpollObj [4; 5]; 4 := EventObj 0; 5 := FileObj true]} 0
               [sys_epoll_create1 3; sys_eventfd 4; sys_epoll_ctl_add 3 4 0;
                sys_epoll_ctl_add 3 5 0]))
         (Some 1000)
         (replicate 2 (ReplyFail EINTR) ++ ReplyReady [4] :: [])
       = Returns (None, Epoll.mk_selector 3 4 [], w', []) ∧
     classify None (errno w') = Interrupted ∧
     Epoll.counter (Epoll.mk_selector 3 4 []) w' = 0 ∧
     waits w' = 3%nat) ∧
  (∃ w',
     Epoll.wait_one (Epoll.mk_selector 3 4 [])
         (Epoll.wakeup (Epoll.mk_selector 3 4 [])
            (mk_world {[3 := EpollObj [4; 5]; 4 := EventObj 0; 5 := FileObj true]} 0
               [sys_epoll_create1 3; sys_eventfd 4; sys_epoll_ctl_add 3 4 0;
                sys_epoll_ctl_add 3 5 0]))
         (Some 1000)
         (replicate 1 (ReplyFail EINTR) ++ ReplyReady [4; 5] :: [])
       = Returns (Some 5, Epoll.mk_selector 3 4 [], w', []) ∧
     waits w' = 2%nat).
Proof.
  destruct C1_epoll_wakeup_interrupts_next_wait as (H1 & H2 & _).
  assert (Epoll.reachable (Epoll.mk_selector 3 4 [])
            (mk_world {[3 := EpollObj [4; 5]; 4 := EventObj 0; 5 := FileObj true]} 0
               [sys_epoll_create1 3; sys_eventfd 4; sys_epoll_ctl_add 3 4 0;
                sys_epoll_ctl_add 3 5 0])) as Hreach.
  { exists (mk_world {[5 := FileObj true]} 0 []), 3, 4, (Epoll.mk_selector 3 4 []),
      (mk_world {[3 := EpollObj [4]; 4 := EventObj 0; 5 := FileObj true]} 0
         [sys_epoll_create1 3; sys_eventfd 4; sys_epoll_ctl_add 3 4 0]),
      [Want 5].
    split; vm_compute; reflexivity. }
  split.
  - apply (H1 _ _ (Some 1000) 2%nat [4] [] Hreach).
    + replace (Epoll.interest _ _) with [4; 5] by (vm_compute; reflexivity).
      set_solver.
    + reflexivity.
    + unfold Epoll.consistent. split; [|split; [|split]].
      * apply (bool_decide_unpack _). vm_compute. exact I.
      * intros fd Hfd.
        replace (Epoll.interest _ _) with [4; 5] by (vm_compute; reflexivity).
        set_solver.
      * intros _. vm_compute. reflexivity.
      * intros _ _ _. set_solver.
    + intros fd Hfd. set_solver.
  - apply (H2 _ _ (Some 1000) 1%nat [4; 5] [] 5 [] Hreach).
    + replace (Epoll.interest _ _) with [4; 5] by (vm_compute; reflexivity).
      set_solver.
    + reflexivity.
    + vm_compute. reflexivity.
Defined.

(** * Further properties of the select backend *)

Section posix_more.
Import Posix.

Lemma posix_create_fold fds : ∀ s,
  _fds (foldl want_read s fds) ≡ₚ _fds s ++ fds ∧
  (Forall in_range fds →
   _reader (foldl want_read s fds) = _reader s ∪ list_to_set fds) ∧
  _pending (foldl want_read s fds) = _pending s ∧
  _breakPipe (foldl want_read s fds) = _breakPipe s ∧
  (StronglySorted Z.le (_fds s) → StronglySorted Z.le (_fds (foldl want_read s fds))).
Proof.
  induction fds as [|fd fds IH]; intros s; simpl.
  - rewrite app_nil_r. split; [done|]. split; [intros _; set_solver|]. done.
  - destruct (IH (want_read s fd)) as (Hp & Hr & Hq & Hb & Hs).
    split; [|split; [|split; [|split]]].
    + rewrite Hp. simpl. rewrite merge_sort_Permutation. by rewrite <- app_assoc.
    + intros [Hfd Hfds]%Forall_cons. rewrite Hr by done. simpl.
      rewrite FD_SET_in_range by done. set_solver.
    + by rewrite Hq.
    + by rewrite Hb.
    + intros _. apply Hs. simpl. apply (StronglySorted_merge_sort Z.le).
Qed.

End posix_more.

(** X1.  [create] on descriptors the bitmap has a bit for (0 up to
    [FD_SETSIZE] - 1) registers every listed descriptor: [_fds] is the list
    sorted in ascending order (with its repetitions), the bitmap holds
    exactly the listed descriptors, and nothing is queued. *)
Theorem X1_create_registers_sorted (fds : list Z) :
  Forall Posix.in_range fds →
  StronglySorted Z.le (Posix._fds (Posix.create fds)) ∧
  Posix._fds (Posix.create fds) ≡ₚ fds ∧
  (∀ fd, fd ∈ Posix._reader (Posix.create fds) ↔ fd ∈ fds) ∧
  Posix._pending (Posix.create fds) = [].
Proof.
  intros Hfds. unfold Posix.create.
  destruct (posix_create_fold fds Posix.init) as (Hp & Hr & Hq & _ & Hs).
  split; [apply Hs; constructor|]. split; [done|]. split; [|done].
  intros fd. rewrite Hr by done. simpl. set_solver.
Qed.

Lemma X1_witness :
  StronglySorted Z.le (Posix._fds (Posix.create [9; 1023; 0; 9])) ∧
  Posix._fds (Posix.create [9; 1023; 0; 9]) ≡ₚ [9; 1023; 0; 9] ∧
  (∀ fd, fd ∈ Posix._reader (Posix.create [9; 1023; 0; 9]) ↔ fd ∈ [9; 1023; 0; 9]) ∧
  Posix._pending (Posix.create [9; 1023; 0; 9]) = [].
Proof.
  apply (X1_create_registers_sorted [9; 1023; 0; 9]).
  apply (bool_decide_unpack _). vm_compute. exact I.
Defined.

(** X2.  In every state reached with descriptors the bitmap has a bit for,
    [_fds] is sorted in ascending order and lists every descriptor set in
    [_reader]; hence the width [_fds.back() + 1] that [wait_one] hands to
    [select] exceeds every watched descriptor. *)
Theorem X2_select_width_covers_watched s w :
  Posix.reachable_in_range s w →
  StronglySorted Z.le (Posix._fds s) ∧
  (∀ fd, fd ∈ Posix._reader s → fd ∈ Posix._fds s) ∧
  (∀ fd, fd ∈ Posix._fds s → fd < List.last (Posix._fds s) 0 + 1).
Proof.
  intros Hr. destruct (posix_reachable_inv _ _ Hr) as ((Hs & _ & Hsub) & _).
  split; [done|]. split; [done|].
  clear -Hs. induction Hs as [|x l Hl IH Hx]; intros fd Hin.
  - by apply not_elem_of_nil in Hin.
  - destruct l as [|y l'].
    + apply list_elem_of_singleton in Hin as ->. simpl. lia.
    + change (List.last (x :: y :: l') 0) with (List.last (y :: l') 0).
      apply elem_of_cons in Hin as [->|Hin]; [|by apply IH].
      rewrite Forall_forall in Hx.
      assert (x ≤ y) by (apply Hx; left).
      assert (y < List.last (y :: l') 0 + 1) by (apply IH; left). lia.
Qed.

Lemma X2_witness :
  StronglySorted Z.le (Posix._fds (Posix.create [9; 5])) ∧
  (∀ fd, fd ∈ Posix._reader (Posix.create [9; 5]) → fd ∈ Posix._fds (Posix.create [9; 5])) ∧
  (∀ fd, fd ∈ Posix._fds (Posix.create [9; 5]) →
         fd < List.last (Posix._fds (Posix.create [9; 5])) 0 + 1).
Proof.
  apply (X2_select_width_covers_watched (Posix.create [9; 5]) World.empty).
  exists World.empty, [Want 9; Want 5]. split.
  - apply (bool_decide_unpack _). vm_compute. exact I.
  - vm_compute. reflexivity.
Defined.



(** X4.  [cancel_read] does not purge the pending queue.  A descriptor
    that is queued when it is cancelled is still returned by the next
    [wait_one], although it is no longer watched (not listed in [_fds], its
    bit clear in [_reader]; not on the interest list); in the select backend
    this needs another descriptor to remain registered, for with [_fds]
    empty the assertion at the head of [wait_one] fails first. *)
Theorem X4_cancelled_descriptor_is_still_delivered :
  (∀ s w t rs fd q,
     Posix._pending s = fd :: q →
     (fd ∉ Posix._fds (Posix.cancel_read s fd)) ∧
     Posix.FD_ISSET fd (Posix._reader (Posix.cancel_read s fd)) = false ∧
     (Posix._fds (Posix.cancel_read s fd) ≠ [] →
      ∃ s', Posix.wait_one (Posix.cancel_read s fd) w t rs = Returns (Some fd, s', w, rs) ∧
            Posix._pending s' = q) ∧
     (Posix._fds (Posix.cancel_read s fd) = [] →
      Posix.wait_one (Posix.cancel_read s fd) w t rs = Aborted)) ∧
  (∀ s w t rs fd q,
     Epoll._pending s = fd :: q →
     (fd ∉ Epoll.interest s (Epoll.cancel_read s w fd)) ∧
     ∃ s', Epoll.wait_one s (Epoll.cancel_read s w fd) t rs
             = Returns (Some fd, s', Epoll.cancel_read s w fd, rs) ∧
           Epoll._pending s' = q).
Proof.
  split.
  - intros s w t rs fd q Hp.
    split; [simpl; rewrite list_elem_of_filter; tauto|].
    split; [simpl; apply FD_ISSET_CLR|].
    split.
    + intros Hne. unfold Posix.wait_one. rewrite bool_decide_eq_false_2 by done.
      rewrite (posix_try_pop_cons _ _ fd q) by done. eexists. split; reflexivity.
    + intros He. unfold Posix.wait_one. by rewrite bool_decide_eq_true_2.
  - intros s w t rs fd q Hp. split.
    + unfold Epoll.interest, Epoll.cancel_read, epoll_ctl_del, fail.
      destruct (objs w !! Epoll._epollFd s) as [[l|c|p]|] eqn:Ho; simpl;
        rewrite ?Ho; try apply not_elem_of_nil.
      case_bool_decide as Hin; simpl.
      * rewrite lookup_insert_eq. rewrite list_elem_of_filter. tauto.
      * destruct (objs w !! fd) as [o|];
          [destruct (negb (can_poll o)); [|destruct (fd =? Epoll._epollFd s)]|];
          simpl; by rewrite Ho.
    + unfold Epoll.wait_one. rewrite (epoll_try_pop_cons _ fd q) by done.
      eexists. split; reflexivity.
Qed.

Lemma X4_witness :
  (∃ s', Posix.wait_one
           (Posix.cancel_read (Posix.mk_selector {[5; 9]} [5; 9] [9] (-1, -1)) 9)
           World.empty None []
         = Returns (Some 9, s', World.empty, []) ∧ Posix._pending s' = []) ∧
  Posix.wait_one (Posix.cancel_read (Posix.mk_selector {[9]} [9] [9] (-1, -1)) 9)
      World.empty None [] = Aborted ∧
  (∃ s', Epoll.wait_one (Epoll.mk_selector 3 4 [9])
           (Epoll.cancel_read (Epoll.mk_selector 3 4 [9])
              (mk_world {[3 := EpollObj [4; 5; 9]; 4 := EventObj 0; 5 := FileObj true; 9 := FileObj true]} 0 []) 9)
           None []
         = Returns (Some 9, s',
                    Epoll.cancel_read (Epoll.mk_selector 3 4 [9])
                      (mk_world {[3 := EpollObj [4; 5; 9]; 4 := EventObj 0; 5 := FileObj true; 9 := FileObj true]} 0 []) 9,
                    []) ∧
         Epoll._pending s' = []).
Proof.
  destruct X4_cancelled_descriptor_is_still_delivered as (Hp & He).
  split; [|split].
  - destruct (Hp (Posix.mk_selector {[5; 9]} [5; 9] [9] (-1, -1))
                 World.empty None [] 9 [] eq_refl) as (_ & _ & H & _).
    apply H. vm_compute. discriminate.
  - destruct (Hp (Posix.mk_selector {[9]} [9] [9] (-1, -1))
                 World.empty None [] 9 [] eq_refl) as (_ & _ & _ & H).
    apply H. vm_compute. reflexivity.
  - destruct (He (Epoll.mk_selector 3 4 [9])
                 (mk_world {[3 := EpollObj [4; 5; 9]; 4 := EventObj 0; 5 := FileObj true; 9 := FileObj true]} 0 [])
                 None [] 9 [] eq_refl) as (_ & H).
    exact H.
Defined.

(** X5.  The pending queue is strictly first-in first-out and is served
    without the operating system: as many [wait_one] calls as there are
    queued descriptors return them in queue order, leave the queue empty,
    consume no reply and leave the world (log and [errno] included)
    untouched. *)
Theorem X5_queue_is_served_in_order_without_system_calls :
  (∀ s w t rs,
     Posix._fds s ≠ [] →
     ∃ s', Posix.wait_many (length (Posix._pending s)) s w t rs
             = Returns (Some <$> Posix._pending s, s', w, rs) ∧
           Posix._pending s' = [] ∧ Posix._fds s' = Posix._fds s ∧
           Posix._reader s' = Posix._reader s) ∧
  (∀ s w t rs,
     ∃ s', Epoll.wait_many (length (Epoll._pending s)) s w t rs
             = Returns (Some <$> Epoll._pending s, s', w, rs) ∧
           Epoll._pending s' = []).
Proof.
  split.
  - intros s w t rs Hne. eexists. split; [by apply posix_drain_pending|]. done.
  - intros s w t rs. eexists. split; [by apply epoll_drain_pending|]. done.
Qed.

Lemma X5_witness :
  (∃ s', Posix.wait_many 2 (Posix.mk_selector {[5; 9]} [5; 9] [9; 5] (-1, -1))
           World.empty (Some 10) [ReplyReady [7]]
         = Returns ([Some 9; Some 5], s', World.empty, [ReplyReady [7]]) ∧
         Posix._pending s' = [] ∧ Posix._fds s' = [5; 9] ∧
         Posix._reader s' = {[5; 9]}) ∧
  (∃ s', Epoll.wait_many 2 (Epoll.mk_selector 3 4 [9; 5]) World.empty (Some 10)
           [ReplyReady [7]]
         = Returns ([Some 9; Some 5], s', World.empty, [ReplyReady [7]]) ∧
         Epoll._pending s' = []).
Proof.
  destruct X5_queue_is_served_in_order_without_system_calls as (Hp & He).
  split.
  - refine (Hp (Posix.mk_selector {[5; 9]} [5; 9] [9; 5] (-1, -1))
                World.empty (Some 10) [ReplyReady [7]] _).
    simpl. discriminate.
  - exact (He (Epoll.mk_selector 3 4 [9; 5]) World.empty (Some 10) [ReplyReady [7]]).
Defined.

(** Supporting fact: a [select] that reports nothing ends the call without
    a descriptor. *)
Lemma posix_wait_one_empty_report s w t l rs :
  Posix._fds s ≠ [] → Posix._pending s = [] → Posix.reported s l = ∅ →
  ∃ s' w', Posix.wait_one s w t (ReplyReady l :: rs) = Returns (None, s', w', rs).
Proof.
  intros Hne Hp Hout. unfold Posix.wait_one.
  rewrite bool_decide_eq_false_2 by done.
  rewrite (posix_try_pop_nil _ _ Hp). simpl.
  fold (Posix.reported s l). rewrite Hout. simpl. eauto.
Qed.

(** X6.  In a state reached with descriptors the bitmap has a bit for, a
    descriptor that [wait_one] returns after asking [select] was reported
    by that very call: it is registered, set in the bitmap, named readable
    by the operating system and non-negative, and it is the smallest
    descriptor of the report. *)
Theorem X6_select_backend_returns_smallest_reported s w t l rs fd s' w' rs' :
  Posix.reachable_in_range s w → Posix._pending s = [] →
  Posix.wait_one s w t (ReplyReady l :: rs) = Returns (Some fd, s', w', rs') →
  fd ∈ l ∧ fd ∈ Posix._fds s ∧ fd ∈ Posix._reader s ∧ 0 ≤ fd ∧
  (∀ x, x ∈ Posix.reported s l → fd ≤ x) ∧
  rs' = rs.
Proof.
  intros Hr Hp Hw.
  destruct (posix_reachable_inv _ _ Hr) as [Hi Hfr].
  assert (Posix._fds s ≠ []) as Hne.
  { intros He. unfold Posix.wait_one in Hw. by rewrite bool_decide_eq_true_2 in Hw. }
  destruct (decide (Posix.reported s l = ∅)) as [He|Hout].
  { destruct (posix_wait_one_empty_report s w t l rs Hne Hp He) as (? & ? & H').
    congruence. }
  destruct (decide (63 ∈ Posix.reported s l)) as [H63|H63].
  { rewrite posix_wait_one_bit63 in Hw by (done || by destruct Hi as (_ & ? & _)).
    discriminate. }
  destruct (posix_wait_one_refill s w t l rs Hi Hfr Hne Hp Hout H63)
    as (fd0 & q & Hq & Hw').
  rewrite Hw' in Hw. injection Hw as <- _ _ <-.
  assert (fd0 ∈ filter (λ x, x ∈ Posix.reported s l) (Posix._fds s)) as Hin
    by (rewrite Hq; left).
  apply list_elem_of_filter in Hin as [Hrep Hfd].
  pose proof Hrep as Hrep'. unfold Posix.reported in Hrep'.
  apply elem_of_filter in Hrep' as [Hrange Hmem].
  split; [set_solver|]. split; [done|]. split; [set_solver|]. split; [lia|].
  split; [|done].
  intros x Hx.
  assert (x ∈ filter (λ x, x ∈ Posix.reported s l) (Posix._fds s)) as Hx'.
  { apply list_elem_of_filter. split; [done|].
    destruct Hi as (_ & _ & Hsub). apply Hsub. by eapply posix_reported_subseteq. }
  destruct Hi as (Hs & _ & _).
  pose proof (sorted_filter (λ x, x ∈ Posix.reported s l) _ Hs) as Hsf.
  rewrite Hq in Hsf, Hx'. apply StronglySorted_inv in Hsf as [_ Hall].
  apply elem_of_cons in Hx' as [->|Hx']; [lia|].
  rewrite Forall_forall in Hall. by apply Hall.
Qed.

Lemma X6_witness :
  7 ∈ [9; 7; 4] ∧ 7 ∈ Posix._fds (Posix.create [9; 5; 7]) ∧
  7 ∈ Posix._reader (Posix.create [9; 5; 7]) ∧ 0 ≤ 7 ∧
  (∀ x, x ∈ Posix.reported (Posix.create [9; 5; 7]) [9; 7; 4] → 7 ≤ x) ∧
  ([] : list reply) = [].
Proof.
  eapply (X6_select_backend_returns_smallest_reported (Posix.create [9; 5; 7])
            World.empty None [9; 7; 4] [] 7).
  - exists World.empty, [Want 9; Want 5; Want 7]. split.
    + apply (bool_decide_unpack _). vm_compute. exact I.
    + vm_compute. reflexivity.
  - reflexivity.
  - vm_compute. reflexivity.
Defined.

(** X7.  The timeout handed to [select] is the given number of
    milliseconds exactly: seconds and microseconds add up to it, and for a
    non-negative timeout the microseconds are in the normal range. *)
Theorem X7_timeval_is_exact (ms : Z) :
  (Posix.timeval_of ms).1 * 1000000 + (Posix.timeval_of ms).2 = ms * 1000 ∧
  (0 ≤ ms → 0 ≤ (Posix.timeval_of ms).1 ∧ 0 ≤ (Posix.timeval_of ms).2 < 1000000).
Proof.
  unfold Posix.timeval_of. simpl.
  pose proof (Z.quot_rem' ms 1000) as Hqr.
  assert (-1000 < Z.rem ms 1000 < 1000) as Hb.
  { pose proof (Z.rem_bound_abs ms 1000 ltac:(lia)). lia. }
  assert (to_int (Z.rem ms 1000 * 1000) = Z.rem ms 1000 * 1000) as Hto.
  { unfold to_int. rewrite Z.mod_small; lia. }
  rewrite Hto. split; [lia|].
  intros Hms.
  pose proof (Z.rem_nonneg ms 1000 ltac:(lia) Hms).
  pose proof (Z.quot_pos ms 1000 Hms ltac:(lia)). lia.
Qed.

Lemma X7_witness :
  (Posix.timeval_of 2500).1 * 1000000 + (Posix.timeval_of 2500).2 = 2500 * 1000 ∧
  0 ≤ (Posix.timeval_of 2500).1 ∧ 0 ≤ (Posix.timeval_of 2500).2 < 1000000.
Proof.
  destruct (X7_timeval_is_exact 2500) as (H1 & H2).
  split; [exact H1|]. apply H2. lia.
Defined.

(** X8.  [wait_one] of the select backend never registers or unregisters:
    it leaves [_fds] and [_breakPipe] as they are, and the bitmap can only
    lose descriptors. *)
Theorem X8_select_wait_one_only_shrinks_the_bitmap s w t rs r s' w' rs' :
  Posix.wait_one s w t rs = Returns (r, s', w', rs') →
  Posix._fds s' = Posix._fds s ∧ Posix._breakPipe s' = Posix._breakPipe s ∧
  Posix._reader s' ⊆ Posix._reader s.
Proof.
  intros Hw. apply posix_wait_one_frame in Hw as (H1 & H2 & H3).
  split; [done|]. split; [done|]. intros x. apply H3.
Qed.

Lemma X8_witness :
  ∃ r s' w' rs',
    Posix.wait_one (Posix.create [5; 9]) World.empty None [ReplyReady [5]]
      = Returns (r, s', w', rs') ∧
    Posix._fds s' = Posix._fds (Posix.create [5; 9]) ∧
    Posix._breakPipe s' = Posix._breakPipe (Posix.create [5; 9]) ∧
    Posix._reader s' ⊆ Posix._reader (Posix.create [5; 9]).
Proof.
  eexists _, _, _, _. split; [vm_compute; reflexivity|].
  eapply (X8_select_wait_one_only_shrinks_the_bitmap (Posix.create [5; 9])
            World.empty None [ReplyReady [5]]).
  vm_compute. reflexivity.
Defined.

(** * Further properties of the epoll backend *)

Section epoll_more.
Import Epoll.

Lemma no_new_epoll_refl w : no_new_epoll w w.
Proof. by intros fd l. Qed.

Lemma no_new_epoll_trans w1 w2 w3 :
  no_new_epoll w1 w2 → no_new_epoll w2 w3 → no_new_epoll w1 w3.
Proof. intros H1 H2 fd l H. by apply H1, H2. Qed.

Lemma read_no_new_epoll w fd len : no_new_epoll w (read w fd len).2.
Proof.
  unfold read, fail. intros fd' l.
  destruct (objs w !! fd) as [[l0|c|p]|] eqn:Ho; simpl; try done.
  destruct (len <? 8); [done|]. destruct (c =? 0); [done|]. simpl.
  destruct (decide (fd' = fd)) as [->|Hne].
  - by rewrite lookup_insert_eq.
  - by rewrite lookup_insert_ne.
Qed.

Lemma write_no_new_epoll w fd len v : no_new_epoll w (write w fd len v).2.
Proof.
  unfold write, fail. intros fd' l.
  destruct (objs w !! fd) as [[l0|c|p]|] eqn:Ho; simpl; try done.
  destruct (len <? 8); [done|]. destruct (eventfd_max <? c + v); [done|]. simpl.
  destruct (decide (fd' = fd)) as [->|Hne].
  - by rewrite lookup_insert_eq.
  - by rewrite lookup_insert_ne.
Qed.

Lemma epoll_wait_objs w epfd n t r : objs (epoll_wait w epfd n t r).2 = objs w.
Proof.
  unfold epoll_wait. destruct (objs w !! epfd) as [[l|c|p]|]; [destruct r| | |]; done.
Qed.

(** What [epoll_wait] stores in the event array comes from the reply. *)
Lemma epoll_wait_events w epfd n t r x :
  x ∈ (epoll_wait w epfd n t r).1.2 → ∃ l, r = ReplyReady l ∧ x ∈ l.
Proof.
  unfold epoll_wait.
  destruct (objs w !! epfd) as [[l|c|p]|]; [destruct r as [l0|e]| | |]; simpl;
    try (intros H; by apply not_elem_of_nil in H).
  intros Hx. exists l0. split; [done|]. by apply (subseteq_take n l0).
Qed.

Lemma triage_no_new_epoll s w evs : no_new_epoll w (triage s w evs).2.
Proof.
  unfold triage. generalize false. revert s w.
  induction evs as [|e evs IH]; intros s w p; simpl; [apply no_new_epoll_refl|].
  destruct (e =? _eventFd s).
  - pose proof (read_no_new_epoll w (_eventFd s) 8) as Hr.
    destruct (read w (_eventFd s) 8) as [n w1]. simpl in Hr.
    eapply no_new_epoll_trans; [exact Hr|apply IH].
  - pose proof (IH (push_back s e) w p) as H. exact H.
Qed.

(** [wait_loop] touches no descriptor but the eventfd and never makes or
    alters an epoll object. *)
Lemma epoll_wait_loop_world t rs : ∀ s w r s' w' rs',
  wait_loop s w t rs = Returns (r, s', w', rs') →
  no_new_epoll w w' ∧ ∀ x, x ≠ _eventFd s → objs w' !! x = objs w !! x.
Proof.
  induction rs as [|r0 rs IH]; intros s w r s' w' rs'; simpl; [done|].
  pose proof (epoll_wait_objs w (_epollFd s) max_events (timeout_arg t) r0) as Ho.
  destruct (epoll_wait w (_epollFd s) max_events (timeout_arg t) r0)
    as [[res evs] w1]. simpl in Ho.
  assert (no_new_epoll w w1) as Hn1 by (intros fd l; by rewrite Ho).
  destruct (res =? 0).
  { intros [= <- <- <- <-]. split; [done|]. intros x _. simpl. by rewrite Ho. }
  destruct (res <? 0).
  { destruct (errno w1 =? EINTR).
    - intros H. destruct (IH _ _ _ _ _ _ H) as (Hn & Hf).
      split; [by eapply no_new_epoll_trans|].
      intros x Hx. rewrite Hf by done. by rewrite Ho.
    - intros [= <- <- <- <-]. split; [done|]. intros x _. by rewrite Ho. }
  pose proof (epoll_triage_spec s w1 (take (Z.to_nat res) evs)) as Ht.
  pose proof (triage_no_new_epoll s w1 (take (Z.to_nat res) evs)) as Hn2.
  destruct (triage s w1 (take (Z.to_nat res) evs)) as [[s2 piped] w2].
  destruct Ht as (_ & _ & _ & _ & Hf). simpl in Hn2.
  assert (no_new_epoll w w2) as Hn by (by eapply no_new_epoll_trans).
  destruct (try_pop_pending s2) as [[fd|] s3]; intros [= <- <- <- <-];
    (split; [done|]); intros x Hx; simpl; rewrite Hf by done; by rewrite Ho.
Qed.

Lemma epoll_wait_one_world s w t rs r s' w' rs' :
  wait_one s w t rs = Returns (r, s', w', rs') →
  no_new_epoll w w' ∧ ∀ x, x ≠ _eventFd s → objs w' !! x = objs w !! x.
Proof.
  unfold wait_one, try_pop_pending.
  destruct (_pending s) as [|fd q] eqn:Hp.
  - intros H. by apply epoll_wait_loop_world in H.
  - intros [= <- <- <- <-]. split; [apply no_new_epoll_refl|done].
Qed.

Lemma interest_nodup_no_new s w w' :
  no_new_epoll w w' → interest_nodup s w → interest_nodup s w'.
Proof. intros Hn Hi l Hl. apply Hi. by apply Hn. Qed.

Lemma interest_nodup_want s w fd :
  interest_nodup s w → interest_nodup s (want_read s w fd).
Proof.
  intros Hi l. unfold want_read, epoll_ctl_add, fail.
  destruct (objs w !! _epollFd s) as [[l0|c|p]|] eqn:Ho; simpl; rewrite ?Ho; try done.
  destruct (fd =? _epollFd s); simpl; rewrite ?Ho; [intros [= <-]; by apply Hi|].
  case_bool_decide as Hin; simpl; rewrite ?Ho; [intros [= <-]; by apply Hi|].
  destruct (objs w !! fd) as [o|]; [destruct (can_poll o)|]; simpl; rewrite ?Ho;
    try (intros [= <-]; by apply Hi).
  rewrite lookup_insert_eq. intros [= <-].
  apply NoDup_app. split; [by apply Hi|]. split; [|apply NoDup_singleton].
  intros x Hx ->%list_elem_of_singleton. done.
Qed.

Lemma interest_nodup_cancel s w fd :
  interest_nodup s w → interest_nodup s (cancel_read s w fd).
Proof.
  intros Hi l. unfold cancel_read, epoll_ctl_del, fail.
  destruct (objs w !! _epollFd s) as [[l0|c|p]|] eqn:Ho; simpl; rewrite ?Ho; try done.
  case_bool_decide as Hin; simpl; rewrite ?Ho.
  - rewrite lookup_insert_eq. intros [= <-]. apply NoDup_filter. by apply Hi.
  - destruct (objs w !! fd) as [o|];
      [destruct (negb (can_poll o)); [|destruct (fd =? _epollFd s)]|];
      simpl; rewrite ?Ho; intros [= <-]; by apply Hi.
Qed.

Lemma interest_nodup_step s w o s' w' :
  interest_nodup s w → step (s, w) o = Returns (s', w') →
  interest_nodup s' w' ∧ _epollFd s' = _epollFd s.
Proof.
  intros Hi. destruct o as [fd|fd| |t rs]; simpl.
  - intros [= <- <-]. split; [by apply interest_nodup_want|done].
  - intros [= <- <-]. split; [by apply interest_nodup_cancel|done].
  - intros [= <- <-]. split; [|done].
    eapply interest_nodup_no_new; [|exact Hi]. apply write_no_new_epoll.
  - intros (a & Hw & Ha)%exec_bind_returns.
    destruct a as [[[r s1] w1] rs1]. injection Ha as <- <-.
    pose proof (epoll_wait_one_world _ _ _ _ _ _ _ _ Hw) as (Hn & _).
    apply epoll_wait_one_queue in Hw as (He & _ & _).
    split; [|done]. intros l. rewrite He. intros Hl. apply Hi. by apply Hn.
Qed.

Lemma interest_nodup_run ops : ∀ s w s' w',
  interest_nodup s w → run (s, w) ops = Returns (s', w') → interest_nodup s' w'.
Proof.
  induction ops as [|o ops IH]; intros s w s' w' Hi; simpl.
  { by intros [= <- <-]. }
  intros (a & Hs & Hr)%exec_bind_returns. destruct a as [s1 w1].
  destruct (interest_nodup_step _ _ _ _ _ Hi Hs) as (Hi1 & _).
  eapply IH; eauto.
Qed.

Lemma interest_nodup_new w0 r1 r2 s w :
  new w0 r1 r2 = Returns (s, w) → interest_nodup s w.
Proof.
  unfold new, epoll_create1, eventfd.
  destruct (r1 =? -1) eqn:H1; [simpl; done|]. simpl. rewrite H1.
  destruct (r2 =? -1) eqn:H2; [simpl; done|]. simpl. rewrite H2.
  unfold epoll_ctl_add, fail. simpl.
  destruct (decide (r1 = r2)) as [->|Hne].
  - rewrite lookup_insert_eq. simpl. intros [= <- <-] l. simpl.
    rewrite lookup_insert_eq. done.
  - rewrite lookup_insert_ne, lookup_insert_eq by done.
    replace (r2 =? r1) with false by (symmetry; apply Z.eqb_neq; congruence).
    simpl. rewrite lookup_insert_eq. simpl.
    intros [= <- <-] l. simpl. rewrite lookup_insert_eq.
    intros [= <-]. apply NoDup_singleton.
Qed.

End epoll_more.

(** X9.  In every reachable state of the epoll backend the interest list
    holds each descriptor at most once, whatever the client registers or
    cancels and however often. *)
Theorem X9_epoll_interest_list_has_no_repetition s w :
  Epoll.reachable s w → NoDup (Epoll.interest s w).
Proof.
  intros (w0 & r1 & r2 & s0 & w1 & ops & Hn & Hr).
  pose proof (interest_nodup_run _ _ _ _ _ (interest_nodup_new _ _ _ _ _ Hn) Hr) as Hi.
  unfold Epoll.interest.
  destruct (objs w !! Epoll._epollFd s) as [[l|c|p]|] eqn:Ho;
    [by apply Hi | apply NoDup_nil_2 | apply NoDup_nil_2 | apply NoDup_nil_2].
Qed.

Lemma X9_witness :
  NoDup (Epoll.interest (Epoll.mk_selector 3 4 [])
           (mk_world {[3 := EpollObj [4; 5]; 4 := EventObj 0; 5 := FileObj true]} EEXIST
              [sys_epoll_create1 3; sys_eventfd 4; sys_epoll_ctl_add 3 4 0;
               sys_epoll_ctl_add 3 5 0; sys_epoll_ctl_add 3 5 (-1)])).
Proof.
  apply X9_epoll_interest_list_has_no_repetition.
  exists (mk_world {[5 := FileObj true]} 0 []), 3, 4, (Epoll.mk_selector 3 4 []),
    (mk_world {[3 := EpollObj [4]; 4 := EventObj 0; 5 := FileObj true]} 0
       [sys_epoll_create1 3; sys_eventfd 4; sys_epoll_ctl_add 3 4 0]),
    [Want 5; Want 5].
  split; vm_compute; reflexivity.
Defined.

(** X10.  Registration in the epoll backend, for a descriptor that is not
    on the interest list.  When the descriptor is open and supports
    polling, [want_read] appends it to the interest list and [cancel_read]
    afterwards gives back the descriptor table as it was, while
    [cancel_read] alone changes no kernel object and leaves [ENOENT] in
    [errno].  When the descriptor is not open, neither call changes a
    kernel object and both leave [EBADF] in [errno]. *)
Theorem X10_epoll_cancel_read_undoes_want_read s w l fd :
  objs w !! Epoll._epollFd s = Some (EpollObj l) →
  fd ≠ Epoll._epollFd s → fd ∉ l →
  (∀ o, objs w !! fd = Some o → can_poll o = true →
     Epoll.interest s (Epoll.want_read s w fd) = l ++ [fd] ∧
     objs (Epoll.cancel_read s (Epoll.want_read s w fd) fd) = objs w ∧
     objs (Epoll.cancel_read s w fd) = objs w ∧
     errno (Epoll.cancel_read s w fd) = ENOENT) ∧
  (objs w !! fd = None →
     objs (Epoll.want_read s w fd) = objs w ∧
     errno (Epoll.want_read s w fd) = EBADF ∧
     objs (Epoll.cancel_read s w fd) = objs w ∧
     errno (Epoll.cancel_read s w fd) = EBADF).
Proof.
  intros Ho Hne Hni.
  assert (filter (λ x, x ≠ fd) l = l) as Hid.
  { clear -Hni. induction l as [|x l IH]; [done|].
    apply not_elem_of_cons in Hni as [Hne Hni].
    rewrite filter_cons, decide_True by done. by rewrite IH. }
  unfold Epoll.interest, Epoll.want_read, Epoll.cancel_read,
    epoll_ctl_add, epoll_ctl_del, fail.
  rewrite Ho. simpl.
  replace (fd =? Epoll._epollFd s) with false by (symmetry; by apply Z.eqb_neq).
  rewrite (bool_decide_eq_false_2 (fd ∈ l)) by done.
  split.
  - intros o Hfd Hpoll. rewrite Hfd, Hpoll. simpl.
    rewrite !lookup_insert_eq.
    rewrite bool_decide_eq_true_2 by (apply elem_of_app; right; left). simpl.
    split; [done|]. split; [|done].
    rewrite insert_insert_eq, filter_app, Hid, filter_cons, decide_False by tauto.
    rewrite filter_nil, app_nil_r. by apply insert_id.
  - intros Hfd. by rewrite Hfd.
Qed.

Lemma X10_witness :
  (Epoll.interest (Epoll.mk_selector 3 4 [])
     (Epoll.want_read (Epoll.mk_selector 3 4 [])
        (mk_world {[3 := EpollObj [4; 5]; 4 := EventObj 0;
                    5 := FileObj true; 9 := FileObj true]} 0 []) 9) = [4; 5] ++ [9] ∧
   objs (Epoll.cancel_read (Epoll.mk_selector 3 4 [])
           (Epoll.want_read (Epoll.mk_selector 3 4 [])
              (mk_world {[3 := EpollObj [4; 5]; 4 := EventObj 0;
                          5 := FileObj true; 9 := FileObj true]} 0 []) 9) 9)
     = objs (mk_world {[3 := EpollObj [4; 5]; 4 := EventObj 0;
                        5 := FileObj true; 9 := FileObj true]} 0 []) ∧
   objs (Epoll.cancel_read (Epoll.mk_selector 3 4 [])
           (mk_world {[3 := EpollObj [4; 5]; 4 := EventObj 0;
                       5 := FileObj true; 9 := FileObj true]} 0 []) 9)
     = objs (mk_world {[3 := EpollObj [4; 5]; 4 := EventObj 0;
                        5 := FileObj true; 9 := FileObj true]} 0 []) ∧
   errno (Epoll.cancel_read (Epoll.mk_selector 3 4 [])
            (mk_world {[3 := EpollObj [4; 5]; 4 := EventObj 0;
                        5 := FileObj true; 9 := FileObj true]} 0 []) 9) = ENOENT) ∧
  (objs (Epoll.want_read (Epoll.mk_selector 3 4 [])
           (mk_world {[3 := EpollObj [4; 5]; 4 := EventObj 0;
                       5 := FileObj true; 9 := FileObj true]} 0 []) 7)
     = objs (mk_world {[3 := EpollObj [4; 5]; 4 := EventObj 0;
                        5 := FileObj true; 9 := FileObj true]} 0 []) ∧
   errno (Epoll.want_read (Epoll.mk_selector 3 4 [])
            (mk_world {[3 := EpollObj [4; 5]; 4 := EventObj 0;
                        5 := FileObj true; 9 := FileObj true]} 0 []) 7) = EBADF ∧
   objs (Epoll.cancel_read (Epoll.mk_selector 3 4 [])
           (mk_world {[3 := EpollObj [4; 5]; 4 := EventObj 0;
                       5 := FileObj true; 9 := FileObj true]} 0 []) 7)
     = objs (mk_world {[3 := EpollObj [4; 5]; 4 := EventObj 0;
                        5 := FileObj true; 9 := FileObj true]} 0 []) ∧
   errno (Epoll.cancel_read (Epoll.mk_selector 3 4 [])
            (mk_world {[3 := EpollObj [4; 5]; 4 := EventObj 0;
                        5 := FileObj true; 9 := FileObj true]} 0 []) 7) = EBADF).
Proof.
  split.
  - apply (X10_epoll_cancel_read_undoes_want_read (Epoll.mk_selector 3 4 [])
             (mk_world {[3 := EpollObj [4; 5]; 4 := EventObj 0;
                         5 := FileObj true; 9 := FileObj true]} 0 []) [4; 5] 9)
      with (o := FileObj true).
    + vm_compute. reflexivity.
    + simpl. lia.
    + apply (bool_decide_unpack _). vm_compute. exact I.
    + vm_compute. reflexivity.
    + reflexivity.
  - apply (X10_epoll_cancel_read_undoes_want_read (Epoll.mk_selector 3 4 [])
             (mk_world {[3 := EpollObj [4; 5]; 4 := EventObj 0;
                         5 := FileObj true; 9 := FileObj true]} 0 []) [4; 5] 7).
    + vm_compute. reflexivity.
    + simpl. lia.
    + apply (bool_decide_unpack _). vm_compute. exact I.
    + vm_compute. reflexivity.
Defined.

(** X11.  [wait_one] of the epoll backend never changes what is watched:
    whatever it returns, the interest list is the one it started with, and
    no descriptor other than the eventfd is touched. *)
Theorem X11_epoll_wait_one_keeps_the_interest_list s w t rs r s' w' rs' :
  Epoll._epollFd s ≠ Epoll._eventFd s →
  Epoll.wait_one s w t rs = Returns (r, s', w', rs') →
  Epoll.interest s' w' = Epoll.interest s w ∧
  Epoll._epollFd s' = Epoll._epollFd s ∧ Epoll._eventFd s' = Epoll._eventFd s ∧
  ∀ fd, fd ≠ Epoll._eventFd s → objs w' !! fd = objs w !! fd.
Proof.
  intros Hne Hw.
  pose proof (epoll_wait_one_world _ _ _ _ _ _ _ _ Hw) as (_ & Hf).
  apply epoll_wait_one_queue in Hw as (He1 & He2 & _).
  split; [|done]. unfold Epoll.interest. rewrite He1. by rewrite Hf.
Qed.

Lemma X11_witness :
  ∃ r s' w' rs',
    Epoll.wait_one (Epoll.mk_selector 3 4 [])
        (mk_world {[3 := EpollObj [4; 5; 9]; 4 := EventObj 2; 5 := FileObj true; 9 := FileObj true]} 0 []) None
        [ReplyFail EINTR; ReplyReady [9; 4; 5]]
      = Returns (r, s', w', rs') ∧
    Epoll.interest s' w'
      = Epoll.interest (Epoll.mk_selector 3 4 [])
          (mk_world {[3 := EpollObj [4; 5; 9]; 4 := EventObj 2; 5 := FileObj true; 9 := FileObj true]} 0 []) ∧
    Epoll._epollFd s' = Epoll._epollFd (Epoll.mk_selector 3 4 []) ∧
    Epoll._eventFd s' = Epoll._eventFd (Epoll.mk_selector 3 4 []) ∧
    ∀ fd, fd ≠ Epoll._eventFd (Epoll.mk_selector 3 4 []) →
      objs w' !! fd = objs (mk_world {[3 := EpollObj [4; 5; 9]; 4 := EventObj 2; 5 := FileObj true; 9 := FileObj true]} 0 []) !! fd.
Proof.
  eexists _, _, _, _. split; [vm_compute; reflexivity|].
  eapply (X11_epoll_wait_one_keeps_the_interest_list (Epoll.mk_selector 3 4 [])
            (mk_world {[3 := EpollObj [4; 5; 9]; 4 := EventObj 2; 5 := FileObj true; 9 := FileObj true]} 0 []) None
            [ReplyFail EINTR; ReplyReady [9; 4; 5]]).
  - simpl. lia.
  - vm_compute. reflexivity.
Defined.

Section epoll_burst.
Import Epoll.


End epoll_burst.



(** X13.  The destructor closes the selector's own two descriptors and
    nothing else: both leave the descriptor table, every other descriptor
    is left as it is, and two successful [close] calls are logged.  A
    [wakeup] after that fails with [EBADF] and changes no kernel object. *)
Theorem X13_epoll_destructor_closes_its_two_descriptors s w o1 o2 :
  Epoll._epollFd s ≠ Epoll._eventFd s →
  objs w !! Epoll._epollFd s = Some o1 →
  objs w !! Epoll._eventFd s = Some o2 →
  objs (Epoll.destroy s w) = delete (Epoll._eventFd s) (delete (Epoll._epollFd s) (objs w)) ∧
  (∀ fd, fd ≠ Epoll._epollFd s → fd ≠ Epoll._eventFd s →
         objs (Epoll.destroy s w) !! fd = objs w !! fd) ∧
  trace (Epoll.destroy s w)
    = trace w ++ [sys_close (Epoll._epollFd s) 0; sys_close (Epoll._eventFd s) 0] ∧
  objs (Epoll.wakeup s (Epoll.destroy s w)) = objs (Epoll.destroy s w) ∧
  errno (Epoll.wakeup s (Epoll.destroy s w)) = EBADF.
Proof.
  intros Hne H1 H2.
  assert (Epoll.destroy s w =
          mk_world (delete (Epoll._eventFd s) (delete (Epoll._epollFd s) (objs w)))
            (errno w)
            (trace w ++ [sys_close (Epoll._epollFd s) 0; sys_close (Epoll._eventFd s) 0]))
    as Hd.
  { unfold Epoll.destroy, close. rewrite H1. simpl.
    rewrite lookup_delete_ne by done. rewrite H2. simpl. unfold log, set_objs. simpl.
    by rewrite <- app_assoc. }
  rewrite Hd. simpl. split; [done|]. split.
  { intros fd Hf1 Hf2. by rewrite !lookup_delete_ne. }
  split; [done|].
  unfold Epoll.wakeup, write. simpl. rewrite lookup_delete_eq. done.
Qed.

Lemma X13_witness :
  objs (Epoll.destroy (Epoll.mk_selector 3 4 [])
          (mk_world {[3 := EpollObj [4; 5]; 4 := EventObj 0; 5 := FileObj true]} 0 []))
    = delete 4 (delete 3 (objs (mk_world {[3 := EpollObj [4; 5]; 4 := EventObj 0; 5 := FileObj true]} 0 []))) ∧
  (∀ fd, fd ≠ 3 → fd ≠ 4 →
         objs (Epoll.destroy (Epoll.mk_selector 3 4 [])
                 (mk_world {[3 := EpollObj [4; 5]; 4 := EventObj 0; 5 := FileObj true]} 0 [])) !! fd
         = objs (mk_world {[3 := EpollObj [4; 5]; 4 := EventObj 0; 5 := FileObj true]} 0 []) !! fd) ∧
  trace (Epoll.destroy (Epoll.mk_selector 3 4 [])
           (mk_world {[3 := EpollObj [4; 5]; 4 := EventObj 0; 5 := FileObj true]} 0 []))
    = [] ++ [sys_close 3 0; sys_close 4 0] ∧
  objs (Epoll.wakeup (Epoll.mk_selector 3 4 [])
          (Epoll.destroy (Epoll.mk_selector 3 4 [])
             (mk_world {[3 := EpollObj [4; 5]; 4 := EventObj 0; 5 := FileObj true]} 0 [])))
    = objs (Epoll.destroy (Epoll.mk_selector 3 4 [])
              (mk_world {[3 := EpollObj [4; 5]; 4 := EventObj 0; 5 := FileObj true]} 0 [])) ∧
  errno (Epoll.wakeup (Epoll.mk_selector 3 4 [])
           (Epoll.destroy (Epoll.mk_selector 3 4 [])
              (mk_world {[3 := EpollObj [4; 5]; 4 := EventObj 0; 5 := FileObj true]} 0 []))) = EBADF.
Proof.
  apply (X13_epoll_destructor_closes_its_two_descriptors (Epoll.mk_selector 3 4 [])
           (mk_world {[3 := EpollObj [4; 5]; 4 := EventObj 0; 5 := FileObj true]} 0 [])
           (EpollObj [4; 5]) (EventObj 0)).
  - simpl. lia.
  - vm_compute. reflexivity.
  - vm_compute. reflexivity.
Defined.

(** X14.  The constructor aborts exactly when [epoll_create1] or [eventfd]
    returns -1 (it never blocks); when the first fails, [eventfd] is not
    called.  Otherwise, with two distinct descriptors, it returns a
    selector with an empty queue whose interest list is the eventfd alone
    and whose counter is zero, and it touches no other descriptor. *)
Theorem X14_epoll_constructor w r1 r2 :
  (Epoll.new w r1 r2 = Aborted ↔ r1 = -1 ∨ r2 = -1) ∧
  Epoll.new w r1 r2 ≠ Starved ∧
  (r1 ≠ -1 → r2 ≠ -1 → r1 ≠ r2 →
   ∃ w',
     Epoll.new w r1 r2 = Returns (Epoll.mk_selector r1 r2 [], w') ∧
     Epoll.interest (Epoll.mk_selector r1 r2 []) w' = [r2] ∧
     Epoll.counter (Epoll.mk_selector r1 r2 []) w' = 0 ∧
     Epoll.wired (Epoll.mk_selector r1 r2 []) w' ∧
     trace w' = trace w ++ [sys_epoll_create1 r1; sys_eventfd r2;
                            sys_epoll_ctl_add r1 r2 0] ∧
     ∀ fd, fd ≠ r1 → fd ≠ r2 → objs w' !! fd = objs w !! fd).
Proof.
  unfold Epoll.new, epoll_create1, eventfd.
  destruct (Z.eqb_spec r1 (-1)) as [->|H1]; simpl.
  { split; [split; [auto|done]|]. split; [done|]. done. }
  destruct (Z.eqb_spec r1 (-1)) as [?|_]; [done|].
  destruct (Z.eqb_spec r2 (-1)) as [->|H2]; simpl.
  { split; [split; [auto|done]|]. split; [done|]. done. }
  destruct (Z.eqb_spec r2 (-1)) as [?|_]; [done|].
  destruct (epoll_ctl_add _ r1 r2) as [ret w3] eqn:Hctl.
  split; [split; [done|by intros [?|?]]|]. split; [done|].
  intros _ _ Hne. revert Hctl. unfold epoll_ctl_add. simpl.
  rewrite lookup_insert_ne, lookup_insert_eq by done.
  replace (r2 =? r1) with false by (symmetry; apply Z.eqb_neq; congruence).
  simpl. rewrite lookup_insert_eq. simpl.
  intros [= <- <-]. eexists. split; [reflexivity|].
  unfold Epoll.interest, Epoll.counter, Epoll.wired. simpl.
  rewrite !lookup_insert_eq.
  rewrite lookup_insert_ne, lookup_insert_eq by done.
  split; [done|]. split; [done|]. split.
  { split; [done|]. split.
    - exists [r2]. split; [done|]. left.
    - exists 0. split; [done|]. unfold eventfd_max. lia. }
  split; [by rewrite <- !app_assoc|].
  intros fd Hf1 Hf2. by rewrite !lookup_insert_ne.
Qed.

Lemma X14_witness :
  ∃ w',
    Epoll.new World.empty 3 4 = Returns (Epoll.mk_selector 3 4 [], w') ∧
    Epoll.interest (Epoll.mk_selector 3 4 []) w' = [4] ∧
    Epoll.counter (Epoll.mk_selector 3 4 []) w' = 0 ∧
    Epoll.wired (Epoll.mk_selector 3 4 []) w' ∧
    trace w' = trace World.empty ++ [sys_epoll_create1 3; sys_eventfd 4;
                                    sys_epoll_ctl_add 3 4 0] ∧
    ∀ fd, fd ≠ 3 → fd ≠ 4 → objs w' !! fd = objs World.empty !! fd.
Proof.
  destruct (X14_epoll_constructor World.empty 3 4) as (_ & _ & H).
  apply H; lia.
Defined.

Section epoll_provenance.
Import Epoll.

Lemma epoll_wait_loop_provenance t rs : ∀ s w r s' w' rs' x,
  wait_loop s w t rs = Returns (r, s', w', rs') →
  x ∈ from_option (λ fd, [fd]) [] r ++ _pending s' →
  x ∈ _pending s ∨ (x ≠ _eventFd s ∧ ∃ l, ReplyReady l ∈ rs ∧ x ∈ l).
Proof.
  induction rs as [|r0 rs IH]; intros s w r s' w' rs' x; simpl; [done|].
  pose proof (epoll_wait_events w (_epollFd s) max_events (timeout_arg t) r0) as Hev.
  destruct (epoll_wait w (_epollFd s) max_events (timeout_arg t) r0)
    as [[res evs] w1]. simpl in Hev.
  destruct (res =? 0).
  { intros [= <- <- <- <-]. simpl. auto. }
  destruct (res <? 0).
  { destruct (errno w1 =? EINTR).
    - intros H Hx. destruct (IH _ _ _ _ _ _ _ H Hx) as [?|(Hne & l & Hl & Hxl)]; [auto|].
      right. split; [done|]. exists l. split; [by right|done].
    - intros [= <- <- <- <-]. simpl. auto. }
  pose proof (epoll_triage_spec s w1 (take (Z.to_nat res) evs)) as Ht.
  destruct (triage s w1 (take (Z.to_nat res) evs)) as [[s2 piped] w2].
  destruct Ht as (Hq & _ & _ & _).
  assert (x ∈ _pending s2 →
          x ∈ _pending s ∨ (x ≠ _eventFd s ∧ ∃ l, ReplyReady l ∈ r0 :: rs ∧ x ∈ l)) as Hkey.
  { rewrite Hq. intros [?|Hf]%elem_of_app; [auto|]. right.
    apply list_elem_of_filter in Hf as [Hne Hin]. split; [done|].
    apply (subseteq_take (Z.to_nat res) evs) in Hin.
    destruct (Hev x Hin) as (l & -> & Hxl). exists l. split; [left|done]. }
  unfold try_pop_pending. destruct (_pending s2) as [|fd q] eqn:Hp.
  - intros [= <- <- <- <-]. simpl. rewrite Hp. intros H. by apply not_elem_of_nil in H.
  - intros [= <- <- <- <-]. simpl. exact Hkey.
Qed.

End epoll_provenance.

(** X15.  Every descriptor the epoll backend hands out was reported by the
    operating system: a descriptor returned by a [wait_one] that found the
    queue empty, and every descriptor that call leaves queued, occurs in a
    readiness report among the replies to that call and is not the
    eventfd. *)
Theorem X15_epoll_returns_only_reported_descriptors s w t rs r s' w' rs' :
  Epoll._pending s = [] →
  Epoll.wait_one s w t rs = Returns (r, s', w', rs') →
  ∀ x, (r = Some x ∨ x ∈ Epoll._pending s') →
       x ≠ Epoll._eventFd s ∧ ∃ l, ReplyReady l ∈ rs ∧ x ∈ l.
Proof.
  intros Hp Hw x Hx. unfold Epoll.wait_one in Hw.
  rewrite (epoll_try_pop_nil _ Hp) in Hw.
  destruct (epoll_wait_loop_provenance t rs s w r s' w' rs' x Hw) as [Hin|?]; [|by rewrite Hp in Hin; apply not_elem_of_nil in Hin|done].
  apply elem_of_app. destruct Hx as [->|?]; [left; simpl; left|by right].
Qed.

Lemma X15_witness :
  9 ≠ Epoll._eventFd (Epoll.mk_selector 3 4 []) ∧
  ∃ l, ReplyReady l ∈ [ReplyFail EINTR; ReplyReady [9; 4; 5]] ∧ 9 ∈ l.
Proof.
  apply (X15_epoll_returns_only_reported_descriptors (Epoll.mk_selector 3 4 [])
           (mk_world {[3 := EpollObj [4; 5; 9]; 4 := EventObj 2; 5 := FileObj true; 9 := FileObj true]} 0 []) None
           [ReplyFail EINTR; ReplyReady [9; 4; 5]] (Some 9)
           (Epoll.mk_selector 3 4 [5])
           (mk_world {[3 := EpollObj [4; 5; 9]; 4 := EventObj 0; 5 := FileObj true; 9 := FileObj true]} EINTR
              [sys_epoll_wait 3 (-1) (-1); sys_epoll_wait 3 (-1) 3; sys_read 4 8]) []).
  - reflexivity.
  - vm_compute. reflexivity.
  - left. reflexivity.
Defined.

(** X16.  In the epoll backend readiness calls cut short by a signal are
    invisible to the caller: a [wait_one] whose first [n] readiness calls
    fail with [EINTR] behaves as the same call on the remaining replies,
    started in a world with the same descriptor table and [n] more
    readiness calls in its log. *)
Theorem X16_epoll_signal_interruptions_are_transparent s w t rs (n : nat) il :
  Epoll._pending s = [] →
  objs w !! Epoll._epollFd s = Some (EpollObj il) →
  ∃ w1,
    Epoll.wait_one s w t (replicate n (ReplyFail EINTR) ++ rs) = Epoll.wait_one s w1 t rs ∧
    objs w1 = objs w ∧ waits w1 = (waits w + n)%nat.
Proof.
  intros Hp Ho. unfold Epoll.wait_one. rewrite (epoll_try_pop_nil _ Hp).
  by apply (epoll_wait_loop_EINTRs s t rs n w il).
Qed.

Lemma X16_witness :
  ∃ w1,
    Epoll.wait_one (Epoll.mk_selector 3 4 [])
        (mk_world {[3 := EpollObj [4; 5]; 4 := EventObj 0; 5 := FileObj true]} 0 []) (Some 10)
        (replicate 3 (ReplyFail EINTR) ++ [ReplyReady [5]])
      = Epoll.wait_one (Epoll.mk_selector 3 4 []) w1 (Some 10) [ReplyReady [5]] ∧
    objs w1 = objs (mk_world {[3 := EpollObj [4; 5]; 4 := EventObj 0; 5 := FileObj true]} 0 []) ∧
    waits w1 = 3%nat.
Proof.
  apply (X16_epoll_signal_interruptions_are_transparent (Epoll.mk_selector 3 4 [])
           (mk_world {[3 := EpollObj [4; 5]; 4 := EventObj 0; 5 := FileObj true]} 0 [])
           (Some 10) [ReplyReady [5]] 3 [4; 5]).
  - reflexivity.
  - vm_compute. reflexivity.
Defined.

(** X17.  The timeout handed to [epoll_wait] is the millisecond count cut
    to 32 bits: an absent timeout is -1, a count below 2^31 is passed as it
    is, and a count from 2^31 up to 2^32 - 1 arrives as a negative number. *)
Theorem X17_epoll_timeout_is_cut_to_32_bits :
  Epoll.timeout_arg None = -1 ∧
  (∀ ms, 0 ≤ ms < 2 ^ 31 → Epoll.timeout_arg (Some ms) = ms) ∧
  (∀ ms, 2 ^ 31 ≤ ms < 2 ^ 32 →
         Epoll.timeout_arg (Some ms) = ms - 2 ^ 32 ∧ Epoll.timeout_arg (Some ms) < 0) ∧
  (∀ ms, -2 ^ 31 ≤ Epoll.timeout_arg (Some ms) < 2 ^ 31 ∧
         Epoll.timeout_arg (Some (ms + 2 ^ 32)) = Epoll.timeout_arg (Some ms)).
Proof.
  split; [done|]. unfold Epoll.timeout_arg, to_int.
  split; [|split].
  - intros ms H. rewrite Z.mod_small; lia.
  - intros ms H.
    assert ((ms + 2 ^ 31) `mod` 2 ^ 32 = ms - 2 ^ 31) as ->.
    { symmetry. apply (Z.mod_unique _ _ 1); lia. }
    lia.
  - intros ms. split.
    + pose proof (Z.mod_pos_bound (ms + 2 ^ 31) (2 ^ 32) ltac:(lia)). lia.
    + f_equal. replace (ms + 2 ^ 32 + 2 ^ 31) with (ms + 2 ^ 31 + 1 * 2 ^ 32) by lia.
      by rewrite Z.mod_add.
Qed.

Lemma X17_witness :
  Epoll.timeout_arg (Some 1000) = 1000 ∧
  (Epoll.timeout_arg (Some 4294967295) = 4294967295 - 2 ^ 32 ∧
   Epoll.timeout_arg (Some 4294967295) < 0).
Proof.
  destruct X17_epoll_timeout_is_cut_to_32_bits as (_ & H1 & H2 & _).
  split; [apply H1; lia | apply H2; lia].
Defined.

(** * Properties of the configuration helpers *)

(** X18.  [sanitizeRange] with [min <= max]: afterwards the value lies in
    the range; the flag tells whether it already did, in which case it is
    unchanged; a value below the range becomes [min] and one above becomes
    [max]; sanitizing again changes nothing and reports success. *)
Theorem X18_sanitizeRange_clamps_and_reports (v lo hi : Z) :
  lo ≤ hi →
  lo ≤ (Config.sanitizeRange v lo hi).2 ≤ hi ∧
  ((Config.sanitizeRange v lo hi).1 = true ↔ lo ≤ v ≤ hi) ∧
  (lo ≤ v ≤ hi → (Config.sanitizeRange v lo hi).2 = v) ∧
  (v < lo → (Config.sanitizeRange v lo hi).2 = lo) ∧
  (hi < v → (Config.sanitizeRange v lo hi).2 = hi) ∧
  Config.sanitizeRange (Config.sanitizeRange v lo hi).2 lo hi
    = (true, (Config.sanitizeRange v lo hi).2).
Proof.
  intros Hle. unfold Config.sanitizeRange, Config.clamp.
  destruct (Z.leb_spec lo v), (Z.leb_spec v hi); simpl;
    repeat match goal with
    | |- context [?a <? ?b] => destruct (Z.ltb_spec a b); simpl
    | |- context [?a <=? ?b] => destruct (Z.leb_spec a b); simpl
    end; try lia;
    repeat split; intros; try done; try lia.
Qed.

Lemma X18_witness :
  3 ≤ (Config.sanitizeRange 1000 3 300).2 ≤ 300 ∧
  ((Config.sanitizeRange 1000 3 300).1 = true ↔ 3 ≤ 1000 ≤ 300) ∧
  (3 ≤ 1000 ≤ 300 → (Config.sanitizeRange 1000 3 300).2 = 1000) ∧
  (1000 < 3 → (Config.sanitizeRange 1000 3 300).2 = 3) ∧
  (300 < 1000 → (Config.sanitizeRange 1000 3 300).2 = 300) ∧
  Config.sanitizeRange (Config.sanitizeRange 1000 3 300).2 3 300
    = (true, (Config.sanitizeRange 1000 3 300).2).
Proof. apply (X18_sanitizeRange_clamps_and_reports 1000 3 300). lia. Defined.

(** X19.  The terminal size of a loaded profile: after the sanitizing block
    the width is between 3 and 300 columns and the height between 3 and 200
    lines; a size within these bounds is kept and logs nothing, a dimension
    below its lower bound is set to it and one above its upper bound is set
    to that; the log holds exactly one message per offending dimension, the
    one about the width first; and the number such a message shows is the
    stored, already clamped dimension, that is one of the two bounds, not
    the value that was out of bounds. *)
Theorem X19_terminal_size_is_forced_into_bounds (columns lines : Z) :
  let '(c', l', log) := Config.sanitizeTerminalSize columns lines in
  3 ≤ c' ≤ 300 ∧ 3 ≤ l' ≤ 200 ∧
  (3 ≤ columns ≤ 300 → c' = columns) ∧ (3 ≤ lines ≤ 200 → l' = lines) ∧
  (log = [] ↔ 3 ≤ columns ≤ 300 ∧ 3 ≤ lines ≤ 200) ∧
  (∀ shown lo hi, Config.WidthOutOfBounds shown lo hi ∈ log →
     ¬ (3 ≤ columns ≤ 300) ∧ shown = c' ∧ (shown = 3 ∨ shown = 300)) ∧
  (∀ shown lo hi, Config.HeightOutOfBounds shown lo hi ∈ log →
     ¬ (3 ≤ lines ≤ 200) ∧ shown = l' ∧ (shown = 3 ∨ shown = 200)) ∧
  (columns < 3 → c' = 3) ∧ (300 < columns → c' = 300) ∧
  (lines < 3 → l' = 3) ∧ (200 < lines → l' = 200) ∧
  log = (if bool_decide (3 ≤ columns ≤ 300) then []
         else [Config.WidthOutOfBounds c' 3 300]) ++
        (if bool_decide (3 ≤ lines ≤ 200) then []
         else [Config.HeightOutOfBounds l' 3 200]).
Proof.
  unfold Config.sanitizeTerminalSize, Config.sanitizeRange, Config.clamp,
    Config.MinimalColumns, Config.MaximumColumns, Config.MinimalLines,
    Config.MaximumLines.
  destruct (Z.leb_spec 3 columns), (Z.leb_spec columns 300),
    (Z.leb_spec 3 lines), (Z.leb_spec lines 200); simpl;
    repeat match goal with
    | |- context [?a <? ?b] => destruct (Z.ltb_spec a b); simpl
    end; try lia;
    (split; [lia|]); (split; [lia|]); (split; [intros; lia|]);
    (split; [intros; lia|]);
    (split; [split; [intros; try done; lia | intros; try done; lia]|]);
    (split; [intros shown lo hi Hin;
     repeat (apply elem_of_cons in Hin as [Hin|Hin];
             [try discriminate Hin; injection Hin as -> -> ->; lia|]);
     by apply not_elem_of_nil in Hin|]);
    (split; [intros shown lo hi Hin;
     repeat (apply elem_of_cons in Hin as [Hin|Hin];
             [try discriminate Hin; injection Hin as -> -> ->; lia|]);
     by apply not_elem_of_nil in Hin|]);
    (split; [intros; lia|]); (split; [intros; lia|]);
    (split; [intros; lia|]); (split; [intros; lia|]);
    repeat case_bool_decide; (done || lia).
Qed.

Lemma X19_witness :
  let '(c', l', log) := Config.sanitizeTerminalSize 1000 2 in
  3 ≤ c' ≤ 300 ∧ 3 ≤ l' ≤ 200 ∧
  (3 ≤ 1000 ≤ 300 → c' = 1000) ∧ (3 ≤ 2 ≤ 200 → l' = 2) ∧
  (log = [] ↔ 3 ≤ 1000 ≤ 300 ∧ 3 ≤ 2 ≤ 200) ∧
  (∀ shown lo hi, Config.WidthOutOfBounds shown lo hi ∈ log →
     ¬ (3 ≤ 1000 ≤ 300) ∧ shown = c' ∧ (shown = 3 ∨ shown = 300)) ∧
  (∀ shown lo hi, Config.HeightOutOfBounds shown lo hi ∈ log →
     ¬ (3 ≤ 2 ≤ 200) ∧ shown = l' ∧ (shown = 3 ∨ shown = 200)) ∧
  (1000 < 3 → c' = 3) ∧ (300 < 1000 → c' = 300) ∧
  (2 < 3 → l' = 3) ∧ (200 < 2 → l' = 200) ∧
  log = (if bool_decide (3 ≤ 1000 ≤ 300) then []
         else [Config.WidthOutOfBounds c' 3 300]) ++
        (if bool_decide (3 ≤ 2 ≤ 200) then []
         else [Config.HeightOutOfBounds l' 3 200]).
Proof. exact (X19_terminal_size_is_forced_into_bounds 1000 2). Defined.

Section vttype_table.
Context {A : Type}.

Lemma lookup_name_In (table : list (string * A)) value x :
  Config.lookup_name table value = Some x → (value, x) ∈ table.
Proof.
  induction table as [|[n y] table IH]; simpl; [done|].
  destruct (String.eqb_spec n value) as [->|Hne].
  - intros [= ->]. left.
  - intros H. right. by apply IH.
Qed.

(** The loop finds an entry exactly for the names the table lists. *)
Lemma lookup_name_is_Some (table : list (string * A)) value :
  is_Some (Config.lookup_name table value) ↔ value ∈ table.*1.
Proof.
  induction table as [|[n y] table IH]; simpl.
  - split; [by intros [? ?] | by intros ?%not_elem_of_nil].
  - destruct (String.eqb_spec n value) as [->|Hne].
    + split; [intros _; left | by eexists].
    + rewrite IH, elem_of_cons. naive_solver.
Qed.

(** With no name listed twice, every entry is found under its name. *)
Lemma lookup_name_entry (table : list (string * A)) value x :
  NoDup table.*1 → (value, x) ∈ table → Config.lookup_name table value = Some x.
Proof.
  induction table as [|[n y] table IH]; simpl.
  - by intros _ ?%not_elem_of_nil.
  - intros [Hn Hnd]%NoDup_cons [Heq|Hin]%elem_of_cons.
    + injection Heq as <- <-. by rewrite String.eqb_refl.
    + destruct (String.eqb_spec n value) as [->|Hne]; [|by apply IH].
      exfalso. apply Hn. apply list_elem_of_fmap. by exists (value, x).
Qed.

(** In a pairing with values that are pairwise distinct, a value has one
    name. *)
Lemma zip_value_one_name (names : list string) : ∀ (values : list A) a b x,
  NoDup values → (a, x) ∈ zip names values → (b, x) ∈ zip names values → a = b.
Proof.
  induction names as [|n names IH]; intros [|v values] a b x Hnd; simpl;
    try by intros ?%not_elem_of_nil.
  apply NoDup_cons in Hnd as [Hv Hnd].
  intros [Ha|Ha]%elem_of_cons [Hb|Hb]%elem_of_cons.
  - congruence.
  - injection Ha as -> ->. exfalso. apply Hv. by apply elem_of_zip_r in Hb.
  - injection Hb as -> ->. exfalso. apply Hv. by apply elem_of_zip_r in Ha.
  - by eapply IH.
Qed.

End vttype_table.

(** X20.  [stringToVTType], for any enumeration type with the ten
    enumerators the table names: it recognises exactly the ten names of the
    table; the name in row [i] is turned into the enumerator of row [i];
    and, the enumerators being pairwise distinct, two strings that are
    turned into the same terminal type are equal, so that no type has two
    spellings. *)
Theorem X20_stringToVTType_is_one_to_one {VTType : Type}
    (VT100 VT220 VT240 VT330 VT340 VT320 VT420 VT510 VT520 VT525 : VTType) :
  let stringToVTType :=
    Config.stringToVTType VT100 VT220 VT240 VT330 VT340 VT320 VT420 VT510 VT520 VT525 in
  let vt_types :=
    Config.vt_types VT100 VT220 VT240 VT330 VT340 VT320 VT420 VT510 VT520 VT525 in
  (∀ name, is_Some (stringToVTType name) ↔ name ∈ Config.vt_names) ∧
  (∀ (i : nat) name t,
     Config.vt_names !! i = Some name → vt_types !! i = Some t →
     stringToVTType name = Some t) ∧
  (NoDup vt_types →
   ∀ a b t, stringToVTType a = Some t → stringToVTType b = Some t → a = b).
Proof.
  intros stringToVTType vt_types.
  assert (Config.vt_mappings VT100 VT220 VT240 VT330 VT340 VT320 VT420 VT510
            VT520 VT525 = zip Config.vt_names vt_types) as Hzip by reflexivity.
  assert ((Config.vt_mappings VT100 VT220 VT240 VT330 VT340 VT320 VT420 VT510
             VT520 VT525).*1 = Config.vt_names) as Hfst by reflexivity.
  split; [|split].
  - intros name. unfold stringToVTType, Config.stringToVTType.
    by rewrite lookup_name_is_Some, Hfst.
  - intros i name t Hn Ht. apply lookup_name_entry.
    + rewrite Hfst. apply (bool_decide_unpack _). vm_compute. exact I.
    + apply (list_elem_of_lookup_2 _ i). rewrite Hzip.
      rewrite lookup_zip_with, Hn. simpl. by rewrite Ht.
  - intros Hnd a b t Ha%lookup_name_In Hb%lookup_name_In.
    rewrite Hzip in Ha, Hb. by eapply (zip_value_one_name Config.vt_names).
Qed.

Lemma X20_witness :
  Config.stringToVTType 100 220 240 330 340 320 420 510 520 525 "VT340" = Some 340 ∧
  String.append "VT" "340" = "VT340"%string.
Proof.
  split; [reflexivity|].
  destruct (X20_stringToVTType_is_one_to_one 100 220 240 330 340 320 420 510 520 525)
    as (_ & _ & H).
  apply (H ltac:(apply (bool_decide_unpack _); vm_compute; exact I)
           (String.append "VT" "340") "VT340"%string 340); reflexivity.
Defined.

(** X21.  [appendOrCreateBinding] adds the action to exactly one binding:
    to the end of the action list of the first binding that matches, all
    other bindings (later matching ones included) staying as they are, or,
    when none matches, to a new binding placed last.  No action is lost and
    the total number of actions grows by one. *)
Theorem X21_appendOrCreateBinding_adds_one_action
    {Modes Modifier Input Action : Type}
    (matches : Config.InputBinding → Modes → Modifier → Input → bool)
    (m : Modes) (md : Modifier) (i : Input) (a : Action) :
  (∀ bs,
     (∀ b, b ∈ bs → matches b m md i = false) →
     Config.appendOrCreateBinding matches bs m md i a
       = bs ++ [Config.mk_binding m md i [a]]) ∧
  (∀ pre b post,
     (∀ b', b' ∈ pre → matches b' m md i = false) → matches b m md i = true →
     Config.appendOrCreateBinding matches (pre ++ b :: post) m md i a
       = pre ++ Config.mk_binding (Config.modes b) (Config.modifier b) (Config.input b)
                  (Config.binding b ++ [a]) :: post) ∧
  (∀ bs,
     length (concat (Config.binding <$> Config.appendOrCreateBinding matches bs m md i a))
       = S (length (concat (Config.binding <$> bs))) ∧
     (length (Config.appendOrCreateBinding matches bs m md i a) ≤ S (length bs))%nat).
Proof.
  split; [|split].
  - induction bs as [|b bs IH]; intros Hno; simpl; [done|].
    rewrite (Hno b) by left. f_equal. apply IH. intros b' Hb'. apply Hno. by right.
  - induction pre as [|p pre IH]; intros b post Hno Hb; simpl.
    + by rewrite Hb.
    + rewrite (Hno p) by left. f_equal. apply IH; [|done].
      intros b' Hb'. apply Hno. by right.
  - induction bs as [|b bs IH]; [split; reflexivity|].
    cbn [Config.appendOrCreateBinding].
    destruct (matches b m md i); rewrite !fmap_cons; cbn [concat length Config.binding].
    + rewrite !length_app. cbn [length]. split; lia.
    + destruct IH as [IH1 IH2]. rewrite !length_app, IH1. split; lia.
Qed.

Lemma X21_witness :
  Config.appendOrCreateBinding
      (λ (b : @Config.InputBinding bool bool Z Z) (_ _ : bool) (i : Z),
         Z.eqb (Config.input b) i)
      ([Config.mk_binding true false 1 [10]] ++
       Config.mk_binding true false 2 [20] :: [Config.mk_binding true true 2 [30]])
      true false 2 21
  = [Config.mk_binding true false 1 [10]] ++
    Config.mk_binding true false 2 ([20] ++ [21]) :: [Config.mk_binding true true 2 [30]].
Proof.
  destruct (X21_appendOrCreateBinding_adds_one_action
              (λ (b : @Config.InputBinding bool bool Z Z) (_ _ : bool) (i : Z),
                 Z.eqb (Config.input b) i) true false 2 21) as (_ & H & _).
  apply (H [Config.mk_binding true false 1 [10]]
           (Config.mk_binding true false 2 [20])
           [Config.mk_binding true true 2 [30]]).
  - intros b' Hb'. apply list_elem_of_singleton in Hb' as ->. reflexivity.
  - reflexivity.
Defined.
